(** * MailChimp to ConvertKit converter: a shallow embedding and its properties

    The development follows [mailchimp_to_convertkit.py].  A Python [str] is a
    sequence of Unicode code points and is modelled as a list of [N]; the
    methods of [str] and of [re] that the converter calls are written out as
    list functions; the counters in [self.stats] are threaded through a small
    state monad; the dictionaries produced by [csv.DictReader] are finite
    maps from column names to cell texts and the set of e-mails already
    written is a finite set. *)

From Stdlib Require Import NArith Ascii String Lia.
From stdpp Require Import base option list gmap strings.

Local Open Scope N_scope.

(** ** Python strings *)

Module PyStr.

(** A code point. *)
Abbreviation cp := N (only parsing).

(** A Python [str]. *)
Abbreviation pystr := (list N) (only parsing).

(** An ASCII literal as a Python string. *)
Definition str (s : string) : pystr :=
  List.map N_of_ascii (list_ascii_of_string s).

(** [str.isspace] on one code point (CPython's [_PyUnicode_IsWhitespace]). *)
Definition isspace (c : cp) : bool :=
  ((0x09 <=? c) && (c <=? 0x0D)) || ((0x1C <=? c) && (c <=? 0x20))
  || (c =? 0x85) || (c =? 0xA0) || (c =? 0x1680)
  || ((0x2000 <=? c) && (c <=? 0x200A))
  || (c =? 0x2028) || (c =? 0x2029) || (c =? 0x202F) || (c =? 0x205F)
  || (c =? 0x3000).

(** [s.lstrip()], [s.rstrip()], [s.strip()]. *)
Fixpoint lstrip (s : pystr) : pystr :=
  match s with
  | [] => []
  | c :: s' => if isspace c then lstrip s' else s
  end.

Definition rstrip (s : pystr) : pystr := reverse (lstrip (reverse s)).

Definition strip (s : pystr) : pystr := rstrip (lstrip s).

(** A finished word is kept only when it is not empty. *)
Definition emit (cur : pystr) (l : list pystr) : list pystr :=
  match cur with [] => l | _ => cur :: l end.

(** [s.split()]: the maximal runs of non-whitespace code points, [cur] being
    the run read so far. *)
Fixpoint split_ws_from (cur : pystr) (s : pystr) : list pystr :=
  match s with
  | [] => emit cur []
  | c :: s' =>
      if isspace c then emit cur (split_ws_from [] s')
      else split_ws_from (cur ++ [c]) s'
  end.

Definition split_ws (s : pystr) : list pystr := split_ws_from [] s.

(** [sep.join(l)]. *)
Fixpoint join (sep : pystr) (l : list pystr) : pystr :=
  match l with
  | [] => []
  | [x] => x
  | x :: l' => x ++ sep ++ join sep l'
  end.

(** [s.startswith(p)]. *)
Fixpoint starts_with (p s : pystr) : bool :=
  match p, s with
  | [], _ => true
  | _ :: _, [] => false
  | a :: p', b :: s' => (a =? b) && starts_with p' s'
  end.

(** [s.replace(old, new)] for a non-empty [old]: the occurrences are found
    from the left and do not overlap; [skip] counts the code points of an
    occurrence that are still to be passed over. *)
Fixpoint replace_from (old new : pystr) (skip : nat) (s : pystr) : pystr :=
  match s with
  | [] => []
  | c :: s' =>
      match skip with
      | S k => replace_from old new k s'
      | O =>
          if starts_with old s
          then new ++ replace_from old new (length old - 1)%nat s'
          else c :: replace_from old new O s'
      end
  end.

Definition replace (old new s : pystr) : pystr := replace_from old new O s.

(** [re.split('[...]', s)] for a pattern that is one character class: every
    occurrence separates, empty pieces are kept. *)
Fixpoint re_split_from (issep : cp → bool) (cur : pystr) (s : pystr)
  : list pystr :=
  match s with
  | [] => [cur]
  | c :: s' =>
      if issep c then cur :: re_split_from issep [] s'
      else re_split_from issep (cur ++ [c]) s'
  end.

Definition re_split (issep : cp → bool) (s : pystr) : list pystr :=
  re_split_from issep [] s.

(** [s.split(sep)] for a non-empty separator string. *)
Fixpoint split_sep_from (sep : pystr) (skip : nat) (cur : pystr) (s : pystr)
  : list pystr :=
  match s with
  | [] => [cur]
  | c :: s' =>
      match skip with
      | S k => split_sep_from sep k cur s'
      | O =>
          if starts_with sep s
          then cur :: split_sep_from sep (length sep - 1)%nat [] s'
          else split_sep_from sep O (cur ++ [c]) s'
      end
  end.

Definition split_sep (sep s : pystr) : list pystr := split_sep_from sep O [] s.

(** [s.lower()], one code point at a time.  The ASCII capitals go to their
    small letters.  Outside ASCII only two code points have a lowercase form
    that holds an ASCII code point: U+212A (KELVIN SIGN) becomes [k] and
    U+0130 becomes [i] followed by U+0307.  The other code points above
    U+007F are kept as they are: their lowercase forms stay above U+007F,
    are never whitespace and never empty, and the converter only tests the
    lowercased text for emptiness and against an ASCII pattern. *)
Definition lower_cp (c : cp) : pystr :=
  if (0x41 <=? c) && (c <=? 0x5A) then [c + 0x20]
  else if c =? 0x212A then [0x6B]
  else if c =? 0x130 then [0x69; 0x307]
  else [c].

Definition lower (s : pystr) : pystr := s ≫= lower_cp.

End PyStr.

Import PyStr.

(** ** Regular expressions

    [re.match] is used with one pattern only.  The pattern is kept as a
    syntax tree and matched with derivatives, which decides whether some
    way of matching exists, as the backtracking matcher of [re] does. *)

Module Re.

Inductive regex : Type :=
  | Void : regex
  | Eps : regex
  | Cls : (cp → bool) → regex
  | Cat : regex → regex → regex
  | Alt : regex → regex → regex
  | Star : regex → regex.

(** One literal character, [r+] and [r{n,}]. *)
Definition Chr (c : cp) : regex := Cls (N.eqb c).

Definition Plus (r : regex) : regex := Cat r (Star r).

Fixpoint AtLeast (n : nat) (r : regex) : regex :=
  match n with
  | O => Star r
  | S k => Cat r (AtLeast k r)
  end.

Fixpoint nullable (r : regex) : bool :=
  match r with
  | Void => false
  | Eps => true
  | Cls _ => false
  | Cat r1 r2 => nullable r1 && nullable r2
  | Alt r1 r2 => nullable r1 || nullable r2
  | Star _ => true
  end.

Fixpoint deriv (c : cp) (r : regex) : regex :=
  match r with
  | Void => Void
  | Eps => Void
  | Cls p => if p c then Eps else Void
  | Cat r1 r2 =>
      if nullable r1 then Alt (Cat (deriv c r1) r2) (deriv c r2)
      else Cat (deriv c r1) r2
  | Alt r1 r2 => Alt (deriv c r1) (deriv c r2)
  | Star r1 => Cat (deriv c r1) (Star r1)
  end.

(** The whole of [s] is matched by [r]. *)
Fixpoint accepts (r : regex) (s : pystr) : bool :=
  match s with
  | [] => nullable r
  | c :: s' => accepts (deriv c r) s'
  end.

(** [re.match('^' r '$', s)] as a truth value.  Without [re.MULTILINE] the
    [$] holds at the end of the text and also just before a line feed that
    ends the text. *)
Definition match_to_end (r : regex) (s : pystr) : bool :=
  accepts r s
  || match last s with
     | Some 0x0A => accepts r (removelast s)
     | _ => false
     end.

(** The words of a regular expression. *)
Inductive lang : regex → pystr → Prop :=
  | lang_eps : lang Eps []
  | lang_cls p c : p c = true → lang (Cls p) [c]
  | lang_cat r1 r2 s1 s2 :
      lang r1 s1 → lang r2 s2 → lang (Cat r1 r2) (s1 ++ s2)
  | lang_alt_l r1 r2 s : lang r1 s → lang (Alt r1 r2) s
  | lang_alt_r r1 r2 s : lang r2 s → lang (Alt r1 r2) s
  | lang_star_nil r : lang (Star r) []
  | lang_star_app r s1 s2 :
      lang r s1 → lang (Star r) s2 → lang (Star r) (s1 ++ s2).

End Re.

Import Re.

(** ** The converter *)

(** [self.stats]. *)
Record Stats : Type := mkStats {
  total_rows : nat;
  processed : nat;
  skipped : nat;
  duplicates : nat;
  invalid_emails : nat;
  tags_cleaned : nat
}.

(** The statistics of a new converter object ([__init__]). *)
Definition init_stats : Stats := mkStats 0 0 0 0 0 0.

Definition incr_total_rows (st : Stats) : Stats :=
  mkStats (S (total_rows st)) (processed st) (skipped st) (duplicates st)
          (invalid_emails st) (tags_cleaned st).

Definition incr_processed (st : Stats) : Stats :=
  mkStats (total_rows st) (S (processed st)) (skipped st) (duplicates st)
          (invalid_emails st) (tags_cleaned st).

Definition incr_skipped (st : Stats) : Stats :=
  mkStats (total_rows st) (processed st) (S (skipped st)) (duplicates st)
          (invalid_emails st) (tags_cleaned st).

Definition set_duplicates (n : nat) (st : Stats) : Stats :=
  mkStats (total_rows st) (processed st) (skipped st) n
          (invalid_emails st) (tags_cleaned st).

Definition incr_invalid_emails (st : Stats) : Stats :=
  mkStats (total_rows st) (processed st) (skipped st) (duplicates st)
          (S (invalid_emails st)) (tags_cleaned st).

Definition incr_tags_cleaned (st : Stats) : Stats :=
  mkStats (total_rows st) (processed st) (skipped st) (duplicates st)
          (invalid_emails st) (S (tags_cleaned st)).

(** A method of the converter: a computation that reads and updates
    [self.stats]. *)
Definition M (A : Type) : Type := Stats → A * Stats.

#[global] Instance M_ret : MRet M := λ A a st, (a, st).

#[global] Instance M_bind : MBind M :=
  λ A B f m st, let '(a, st') := m st in f a st'.

Definition modify (f : Stats → Stats) : M unit := λ st, (tt, f st).

(** A [for] loop over [l] that carries the local variables [s]. *)
Fixpoint for_each {A S : Type} (body : A → S → M S) (l : list A) (s : S)
  : M S :=
  match l with
  | [] => mret s
  | x :: l' => s' ← body x s; for_each body l' s'
  end.

(** The truth value of a string: [''] is false. *)
Definition truthy (s : pystr) : bool :=
  match s with [] => false | _ => true end.

(** *** [clean_tags] *)

(** The list literal [quotes_to_remove].  Its last two items are spelled
    with three straight single quotes each, so Python reads them together as
    one triple-quoted string that holds a comma and a space.  The list
    therefore is: U+0022, U+0027, U+0022, U+0022 and the two-character
    string U+002C U+0020. *)
Definition quotes_to_remove : list pystr :=
  [[0x22]; [0x27]; [0x22]; [0x22]; [0x2C; 0x20]].

(** The character class [[,;|]]. *)
Definition is_delimiter (c : cp) : bool :=
  (c =? 0x2C) || (c =? 0x3B) || (c =? 0x7C).

(** [' '.join(tag.split())]. *)
Definition collapse_ws (s : pystr) : pystr := join (str " ") (split_ws s).

(** The loop that fills [cleaned_tags]. *)
Fixpoint clean_each (tags : list pystr) : list pystr :=
  match tags with
  | [] => []
  | tag :: tags' =>
      let cleaned_tag := collapse_ws tag in
      if truthy cleaned_tag then cleaned_tag :: clean_each tags'
      else clean_each tags'
  end.

(** The value of [cleaned_tags] when the loop is over. *)
Definition surviving_tags (tag_string : pystr) : list pystr :=
  let tag_string := strip tag_string in
  let tag_string :=
    foldl (λ s quote, replace quote [] s) tag_string quotes_to_remove in
  clean_each (re_split is_delimiter tag_string).

Definition clean_tags (tag_string : pystr) : M pystr :=
  if negb (truthy tag_string) then mret []
  else
    let cleaned_tags := surviving_tags tag_string in
    _ ← (if negb (bool_decide (cleaned_tags = []))
         then modify incr_tags_cleaned else mret tt);
    mret (join (str ", ") cleaned_tags).

(** *** [clean_name] *)

Definition clean_name (name : pystr) : pystr :=
  if negb (truthy name) then [] else collapse_ws name.

(** *** [validate_email] *)

Definition is_alpha (c : cp) : bool :=
  ((0x41 <=? c) && (c <=? 0x5A)) || ((0x61 <=? c) && (c <=? 0x7A)).

Definition is_digit (c : cp) : bool := (0x30 <=? c) && (c <=? 0x39).

(** [[a-zA-Z0-9._%+-]] *)
Definition local_class (c : cp) : bool :=
  is_alpha c || is_digit c
  || (c =? 0x2E) || (c =? 0x5F) || (c =? 0x25) || (c =? 0x2B) || (c =? 0x2D).

(** [[a-zA-Z0-9.-]] *)
Definition domain_class (c : cp) : bool :=
  is_alpha c || is_digit c || (c =? 0x2E) || (c =? 0x2D).

(** [[a-zA-Z0-9._%+-]+@[a-zA-Z0-9.-]+\.[a-zA-Z]{2,}], between [^] and [$]. *)
Definition email_pattern : regex :=
  Cat (Plus (Cls local_class))
    (Cat (Chr 0x40)
       (Cat (Plus (Cls domain_class))
          (Cat (Chr 0x2E) (AtLeast 2 (Cls is_alpha))))).

Definition validate_email (email : pystr) : bool :=
  if negb (truthy email) then false
  else match_to_end email_pattern (strip email).

(** *** The input file

    [csv.DictReader] gives the header as the list [fieldnames] and each
    data row as a dictionary from column names to cell texts.  Column names
    are only compared with literals, so they are byte strings here.  A cell
    that [DictReader] fills with [None] because its row is too short is not
    a text, and [.strip()] raises on it: such rows are outside this type. *)
Record InputFile : Type := mkInputFile {
  fieldnames : list string;
  rows : list (gmap string (list N))
}.

(** [row.get(column, '')]. *)
Definition row_get (row : gmap string (list N)) (column : string) : pystr :=
  default [] (row !! column).

(** *** [analyze_input] *)

(** The local variables [emails_seen] and [tags_counter]. *)
Record Analysis : Type := mkAnalysis {
  emails_seen : list (list N);
  tags_counter : gmap (list N) nat
}.

(** [counter[key] += 1] on a [Counter]. *)
Definition counter_add (counter : gmap (list N) nat) (key : pystr)
  : gmap (list N) nat :=
  <[key := S (default O (counter !! key))]> counter.

(** [Counter(l)]. *)
Definition Counter (l : list (list N)) : gmap (list N) nat :=
  foldl counter_add ∅ l.

(** The loop over [cleaned.split(', ')]. *)
Definition count_tags (counter : gmap (list N) nat) (cleaned : pystr)
  : gmap (list N) nat :=
  foldl (λ tc tag, if truthy tag then counter_add tc tag else tc)
        counter (split_sep (str ", ") cleaned).

(** The body of the loop [for row in reader] of [analyze_input]. *)
Definition analyze_row (row : gmap string (list N)) (a : Analysis)
  : M Analysis :=
  _ ← modify incr_total_rows;
  let email := lower (strip (row_get row "Email Address")) in
  if truthy email && validate_email email then
    let seen := emails_seen a ++ [email] in
    let tags := strip (row_get row "TAGS") in
    if truthy tags then
      cleaned ← clean_tags tags;
      mret (mkAnalysis seen (count_tags (tags_counter a) cleaned))
    else mret (mkAnalysis seen (tags_counter a))
  else if truthy email then
    _ ← modify incr_invalid_emails; mret a
  else mret a.

(** [analyze_input]: the value is the pair of local variables from which
    the printed statistics are taken; the counters are in the state. *)
Definition analyze_input (f : InputFile) : M Analysis :=
  a ← for_each analyze_row (rows f) (mkAnalysis [] ∅);
  let email_counts := Counter (emails_seen a) in
  let duplicates := filter (λ kv, (1 < kv.2)%nat) email_counts in
  _ ← modify (set_duplicates (size duplicates));
  mret a.

(** The printed line [Valid emails]. *)
Definition valid_emails (a : Analysis) : nat := length (emails_seen a).

(** *** [convert] *)

(** The dictionary [column_mapping]. *)
Record ColumnMapping : Type := mkColumnMapping {
  col_Email : string;
  col_First_Name : string;
  col_Last_Name : string;
  col_Tags : string
}.

Definition column_mapping (available_columns : list string) : ColumnMapping :=
  mkColumnMapping
    (if bool_decide ("Email" ∈ available_columns)
     then "Email" else "Email Address")
    "First Name" "Last Name"
    (if bool_decide ("Tags" ∈ available_columns) then "Tags" else "TAGS").

(** A row of the output file: the dictionary [clean_row]. *)
Record OutRow : Type := mkOutRow {
  Email : list N;
  First_Name : list N;
  Last_Name : list N;
  Tags : list N
}.

(** The local variable [emails_processed] and the data rows written so far. *)
Record Conversion : Type := mkConversion {
  emails_processed : gset (list N);
  written : list OutRow
}.

(** The test of the first [if] of the loop: the row has no usable e-mail. *)
Definition email_rejected (email : pystr) : bool :=
  negb (truthy email) || negb (validate_email email).

(** The body of the loop [for row in reader] of [convert]. *)
Definition convert_row (cm : ColumnMapping) (remove_duplicates : bool)
    (row : gmap string (list N)) (cv : Conversion) : M Conversion :=
  let email := strip (row_get row (col_Email cm)) in
  if email_rejected email then
    _ ← modify incr_skipped; mret cv
  else
    let email_lower := lower email in
    if remove_duplicates && bool_decide (email_lower ∈ emails_processed cv)
    then _ ← modify incr_skipped; mret cv
    else
      let seen := {[email_lower]} ∪ emails_processed cv in
      let first_name := clean_name (row_get row (col_First_Name cm)) in
      let last_name := clean_name (row_get row (col_Last_Name cm)) in
      tags ← clean_tags (row_get row (col_Tags cm));
      let clean_row := mkOutRow email first_name last_name tags in
      _ ← modify incr_processed;
      mret (mkConversion seen (written cv ++ [clean_row])).

(** [convert]: the value is the list of data rows of the output file, which
    follow the fixed header row. *)
Definition convert (f : InputFile) (remove_duplicates : bool)
  : M (list OutRow) :=
  let cm := column_mapping (fieldnames f) in
  cv ← for_each (convert_row cm remove_duplicates) (rows f)
                (mkConversion ∅ []);
  mret (written cv).

(** The three counters printed when the conversion is complete: contacts
    processed, contacts skipped, tags cleaned. *)
Definition conversion_report (st : Stats) : nat * nat * nat :=
  (processed st, skipped st, tags_cleaned st).

(** [main] without [--analyze-only]: a new converter analyses the file and
    then converts it. *)
Definition run (f : InputFile) (keep_duplicates : bool)
  : M (Analysis * list OutRow) :=
  a ← analyze_input f;
  out ← convert f (negb keep_duplicates);
  mret (a, out).

(** ** Predicates used in the statements *)

(** A word: not empty and free of whitespace. *)
Definition nospace (w : pystr) : Prop := Forall (λ c, isspace c = false) w.

Definition word (w : pystr) : Prop := w ≠ [] ∧ nospace w.

(** No whitespace at either end. *)
Definition no_outer_ws (s : pystr) : Prop :=
  (∀ c, head s = Some c → isspace c = false)
  ∧ (∀ c, last s = Some c → isspace c = false).

(** No two whitespace code points side by side. *)
Definition no_double_ws (s : pystr) : Prop :=
  ∀ pre c d post,
    s = pre ++ c :: d :: post → ¬ (isspace c = true ∧ isspace d = true).

(** Only whitespace. *)
Definition blank (s : pystr) : Prop := Forall (λ c, isspace c = true) s.

(** ** The shape of an accepted e-mail address *)

Definition ascii_letter (c : cp) : Prop :=
  (0x41 <= c <= 0x5A) ∨ (0x61 <= c <= 0x7A).

Definition ascii_digit (c : cp) : Prop := 0x30 <= c <= 0x39.

(** Letters, digits and the characters [. _ % + -]. *)
Definition local_char (c : cp) : Prop :=
  ascii_letter c ∨ ascii_digit c ∨ c ∈ [0x2E; 0x5F; 0x25; 0x2B; 0x2D].

(** Letters, digits, dots and hyphens. *)
Definition domain_char (c : cp) : Prop :=
  ascii_letter c ∨ ascii_digit c ∨ c ∈ [0x2E; 0x2D].

(** local-part [@] domain [.] tld, the whole text. *)
Definition email_shape (t : pystr) : Prop :=
  ∃ loc dom tld,
    t = loc ++ [0x40] ++ dom ++ [0x2E] ++ tld
    ∧ loc ≠ [] ∧ Forall local_char loc
    ∧ dom ≠ [] ∧ Forall domain_char dom
    ∧ (2 ≤ length tld)%nat ∧ Forall ascii_letter tld.

(** The text ends with a dot followed by at least two letters. *)
Definition has_tld (t : pystr) : Prop :=
  ∃ pre tld,
    t = pre ++ [0x2E] ++ tld ∧ (2 ≤ length tld)%nat ∧ Forall ascii_letter tld.

(** ** Tag strings *)

(** A separator of tags: comma, semicolon or pipe. *)
Definition separator (c : cp) : Prop := c ∈ [0x2C; 0x3B; 0x7C].

(** A straight quote, U+0022 or U+0027: the quotes that [quotes_to_remove]
    holds. *)
Definition straight_quote (c : cp) : Prop := c ∈ [0x22; 0x27].

(** A curly quote, single or double, opening or closing: U+2018, U+2019,
    U+201C or U+201D. *)
Definition curly_quote (c : cp) : Prop :=
  c ∈ [0x2018; 0x2019; 0x201C; 0x201D].

(** A separator of tags or a quote character, straight or curly. *)
Definition separator_or_quote (c : cp) : Prop :=
  separator c ∨ straight_quote c ∨ curly_quote c.

(** A character that is part of no tag: a separator, a straight quote or
    whitespace. *)
Definition tag_filler (c : cp) : Prop :=
  separator c ∨ straight_quote c ∨ isspace c = true.

(** ** Rows *)

(** The e-mail text that the conversion pass reads from a row. *)
Definition row_email (cm : ColumnMapping) (row : gmap string (list N)) : pystr :=
  strip (row_get row (col_Email cm)).

(** The e-mail text that the analysis pass reads from a row. *)
Definition analysis_email (row : gmap string (list N)) : pystr :=
  lower (strip (row_get row "Email Address")).

(** The value of [clean_tags], which does not depend on the counters. *)
Definition cleaned_tags (s : pystr) : pystr :=
  join (str ", ") (surviving_tags s).

(** The output row built from an accepted input row. *)
Definition clean_row (cm : ColumnMapping) (row : gmap string (list N))
  : OutRow :=
  mkOutRow (row_email cm row)
           (clean_name (row_get row (col_First_Name cm)))
           (clean_name (row_get row (col_Last_Name cm)))
           (cleaned_tags (row_get row (col_Tags cm))).

(** How many items of a list pass a test. *)
Fixpoint count {A : Type} (p : A → bool) (l : list A) : nat :=
  match l with
  | [] => O
  | x :: l' => ((if p x then 1 else 0) + count p l')%nat
  end.

(** ** Sample data *)

(** A MailChimp export with the usual four columns. *)
Definition mailchimp_header : list string :=
  ["Email Address"; "First Name"; "Last Name"; "TAGS"].

Definition mailchimp_row (email first last tags : string)
  : gmap string (list N) :=
  list_to_map [("Email Address", str email); ("First Name", str first);
               ("Last Name", str last); ("TAGS", str tags)].

(** The columns of [mailchimp_header] as resolved by [convert]. *)
Definition mailchimp_columns : ColumnMapping := column_mapping mailchimp_header.

(** The rows of an output whose e-mail lowercases to [key]. *)
Definition rows_for (key : pystr) (out : list OutRow) : list OutRow :=
  filter (λ o, lower (Email o) = key) out.

(** ** Lowercasing and the e-mail pattern *)

(** The lowercase form of an ASCII capital; other code points unchanged. *)
Definition ascii_lower (c : cp) : cp :=
  if (0x41 <=? c) && (c <=? 0x5A) then c + 0x20 else c.

(** Every character class of the expression gives the same answer on a
    code point and on [ascii_lower] of it. *)
Fixpoint case_blind (r : regex) : Prop :=
  match r with
  | Void | Eps => True
  | Cls p => ∀ c, p (ascii_lower c) = p c
  | Cat r1 r2 | Alt r1 r2 => case_blind r1 ∧ case_blind r2
  | Star r1 => case_blind r1
  end.

(** ** How the two passes class a row *)

(** The analysis pass records the e-mail of the row as valid. *)
Definition analysis_valid (row : gmap string (list N)) : bool :=
  truthy (analysis_email row) && validate_email (analysis_email row).

(** The analysis pass counts the row under [invalid_emails]. *)
Definition analysis_invalid (row : gmap string (list N)) : bool :=
  negb (analysis_valid row) && truthy (analysis_email row).

(** The e-mail cell of the row is missing, or empty once trimmed. *)
Definition blank_email (row : gmap string (list N)) : bool :=
  negb (truthy (strip (row_get row "Email Address"))).

(** The conversion pass skips the row for a missing or invalid e-mail. *)
Definition conversion_rejects (cm : ColumnMapping)
    (row : gmap string (list N)) : bool :=
  email_rejected (row_email cm row).

(** The conversion pass takes the e-mail of the row as valid. *)
Definition conversion_accepts (cm : ColumnMapping)
    (row : gmap string (list N)) : bool :=
  negb (email_rejected (row_email cm row)).

(** ** Sample files *)

(** One contact with one tag. *)
Definition one_contact_file : InputFile :=
  mkInputFile mailchimp_header [mailchimp_row "ann@b.com" "Ann" "Lee" "VIP"].

(** One row without an e-mail. *)
Definition blank_email_file : InputFile :=
  mkInputFile mailchimp_header [mailchimp_row "" "No" "One" ""].

(** An export whose columns are named [Email] and [Tags]. *)
Definition email_column_file : InputFile :=
  mkInputFile ["Email"; "Tags"]
    [list_to_map [("Email", str "ann@b.com"); ("Tags", [])]].

(** One e-mail that ends with U+212A, the KELVIN SIGN. *)
Definition kelvin_file : InputFile :=
  mkInputFile ["Email Address"]
    [list_to_map [("Email Address", str "ann@b.c" ++ [0x212A])]].

(** Two rows for one address, a row without e-mail and an invalid one. *)
Definition mixed_file : InputFile :=
  mkInputFile mailchimp_header
    [mailchimp_row "Ann@B.com" "Ann" "Lee" "VIP";
     mailchimp_row "  " "No" "One" "";
     mailchimp_row "bob.b.com" "Bob" "" "x";
     mailchimp_row "ann@b.com" "Annie" "" ""].

(** ** More on the conversion pass *)

(** The rows of a file whose e-mail the conversion pass takes as valid, in
    file order. *)
Definition accepted_rows (cm : ColumnMapping)
    (rows : list (gmap string (list N))) : list (gmap string (list N)) :=
  filter (λ row, conversion_accepts cm row = true) rows.

(** The address under which the conversion pass remembers a written row. *)
Definition seen_key (o : OutRow) : pystr := lower (Email o).

(** ** More on the analysis pass *)

(** The printed line [Unique emails]: [len(email_counts)]. *)
Definition unique_emails (a : Analysis) : nat :=
  size (Counter (emails_seen a)).

(** How many times [e] occurs in [l]. *)
Definition occurrences (e : pystr) (l : list (list N)) : nat :=
  count (λ x, bool_decide (x = e)) l.

(** The address of a row, case apart, as the conversion pass compares it. *)
Definition row_key (cm : ColumnMapping) (row : gmap string (list N)) : pystr :=
  lower (row_email cm row).

(** The different addresses, case apart, of the rows with a valid e-mail. *)
Definition distinct_addresses (cm : ColumnMapping)
    (rows : list (gmap string (list N))) : gset (list N) :=
  list_to_set (row_key cm <$> accepted_rows cm rows).

(** ** [__init__]: the paths of a converter *)

(** A path, as far as the converter looks at it: the directory that holds
    the file ([Path.parent]) and the last component ([Path.name]). *)
Record Path : Type := mkPath {
  parent : list N;
  name : list N
}.

(** [s.rfind(c)] for one character, [None] standing for [-1]. *)
Fixpoint rfind (c : cp) (s : pystr) : option nat :=
  match s with
  | [] => None
  | x :: s' =>
      match rfind c s' with
      | Some i => Some (S i)
      | None => if x =? c then Some O else None
      end
  end.

(** [PurePath.stem]: the name without its last suffix; a dot that starts or
    ends the name does not open a suffix. *)
Definition stem (name : pystr) : pystr :=
  match rfind 0x2E name with
  | Some i =>
      if (0 <? i)%nat && (i <? length name - 1)%nat then take i name
      else name
  | None => name
  end.

(** The object that [__init__] builds. *)
Record Converter : Type := mkConverter {
  input_file : Path;
  output_file : Path;
  verbose : bool;
  stats : Stats
}.

(** [__init__].  [file_exists] is the answer of [self.input_file.exists()];
    the value [None] stands for [FileNotFoundError].  An [output_file]
    argument that is [None] or the empty string is [None] here. *)
Definition init (input : Path) (file_exists : bool) (output : option Path)
    (verbose : bool) : option Converter :=
  if negb file_exists then None
  else
    let output_file :=
      match output with
      | Some p => p
      | None =>
          mkPath (parent input)
                 (stem (name input) ++ str "_convertkit_ready.csv")
      end in
    Some (mkConverter input output_file verbose init_stats).

(** A written row has tags. *)
Definition has_tags (o : OutRow) : bool := truthy (Tags o).

(** * Properties *)

(** ** The string functions on examples *)

Example strip_example : strip (str "  a b	 ") = str "a b".
Proof. reflexivity. Qed.

Example split_ws_example :
  split_ws (str "  Jane   Q.   Public ") = [str "Jane"; str "Q."; str "Public"].
Proof. reflexivity. Qed.

Example replace_example : replace (str ", ") [] (str "a, b,c,  d") = str "ab,c d".
Proof. reflexivity. Qed.

Example re_split_example :
  re_split (λ c, c =? 0x2C) (str ",a,,b") = [[]; str "a"; []; str "b"].
Proof. reflexivity. Qed.

Example split_sep_example :
  split_sep (str ", ") (str "a, b,c, ") = [str "a"; str "b,c"; []].
Proof. reflexivity. Qed.

Example lower_example : lower (str "Ab@C.Com") = str "ab@c.com".
Proof. reflexivity. Qed.

(** ** Whitespace splitting and joining *)

Section Words.

Lemma split_ws_from_app_word cur w s :
  nospace w → split_ws_from cur (w ++ s) = split_ws_from (cur ++ w) s.
Proof.
  intros Hw. revert cur. induction Hw as [|c w Hc _ IH]; intros cur.
  - by rewrite app_nil_r.
  - simpl. rewrite Hc, IH. by rewrite <- app_assoc.
Qed.

Lemma split_ws_from_space cur c s :
  isspace c = true →
  split_ws_from cur (c :: s) = emit cur (split_ws_from [] s).
Proof. intros Hc. simpl. by rewrite Hc. Qed.

Lemma emit_words cur l :
  nospace cur → Forall word l → Forall word (emit cur l).
Proof.
  intros Hcur Hl. destruct cur as [|c cur]; simpl; [done|].
  constructor; [split; [discriminate | exact Hcur] | exact Hl].
Qed.

Lemma split_ws_from_words cur s :
  nospace cur → Forall word (split_ws_from cur s).
Proof.
  revert cur. induction s as [|c s IH]; intros cur Hcur; simpl.
  - by apply emit_words.
  - destruct (isspace c) eqn:Hc.
    + apply emit_words; [done|]. apply IH. constructor.
    + apply IH. apply Forall_app. split; [done|]. by constructor.
Qed.

Lemma split_ws_words s : Forall word (split_ws s).
Proof. apply split_ws_from_words. constructor. Qed.

Lemma split_ws_join ws :
  Forall word ws → split_ws (join (str " ") ws) = ws.
Proof.
  unfold split_ws. induction 1 as [|w ws [Hne Hw] Hws IH]; [done|].
  destruct ws as [|w2 ws].
  - simpl. rewrite <- (app_nil_r w) at 1.
    rewrite split_ws_from_app_word by done. simpl. by destruct w.
  - change (join (str " ") (w :: w2 :: ws))
      with (w ++ 0x20 :: join (str " ") (w2 :: ws)).
    rewrite split_ws_from_app_word by done.
    rewrite split_ws_from_space by done. rewrite IH. by destruct w.
Qed.

Lemma collapse_ws_idem s : collapse_ws (collapse_ws s) = collapse_ws s.
Proof.
  unfold collapse_ws. by rewrite split_ws_join by apply split_ws_words.
Qed.

End Words.

Section Tidy.

Lemma no_double_ws_nil : no_double_ws [].
Proof. intros pre c d post H. by destruct pre. Qed.

Lemma no_double_ws_cons c s :
  (∀ d, head s = Some d → ¬ (isspace c = true ∧ isspace d = true)) →
  no_double_ws s → no_double_ws (c :: s).
Proof.
  intros Hhd Hs pre a b post Heq. destruct pre as [|x pre]; simpl in Heq.
  - injection Heq as -> ->. by apply Hhd.
  - injection Heq as -> ->. by eapply Hs.
Qed.

Lemma no_double_ws_word_app w t :
  nospace w → no_double_ws t → no_double_ws (w ++ t).
Proof.
  induction 1 as [|c w Hc _ IH]; intros Ht; [done|]. simpl.
  apply no_double_ws_cons; [|by apply IH].
  intros d _ [Hc' _]. congruence.
Qed.

Lemma join_words_head sep w ws c :
  word w → head (join sep (w :: ws)) = Some c → isspace c = false.
Proof.
  intros [Hne Hw]. destruct w as [|a w]; [done|].
  assert (head (join sep ((a :: w) :: ws)) = Some a) as ->
    by (by destruct ws).
  intros [= <-]. by inversion Hw.
Qed.

Lemma join_words_last sep ws c :
  Forall word ws → last (join sep ws) = Some c → isspace c = false.
Proof.
  induction 1 as [|w ws [Hne Hw] Hws IH]; [done|].
  destruct ws as [|w2 ws].
  - simpl. intros Hl. apply last_Some in Hl as [l' ->].
    apply Forall_app in Hw as [_ Hc]. by inversion Hc.
  - change (join sep (w :: w2 :: ws)) with (w ++ sep ++ join sep (w2 :: ws)).
    rewrite !last_app. destruct (last (join sep (w2 :: ws))) eqn:Hl.
    + intros [= <-]. by apply IH.
    + exfalso. inversion Hws as [|? ? [Hne2 _] _]; subst.
      apply last_None in Hl. destruct w2; [done|]. by destruct ws.
Qed.

Lemma join_words_no_double ws :
  Forall word ws → no_double_ws (join (str " ") ws).
Proof.
  induction 1 as [|w ws [Hne Hw] Hws IH]; [apply no_double_ws_nil|].
  destruct ws as [|w2 ws].
  - simpl. rewrite <- (app_nil_r w).
    apply no_double_ws_word_app; [done | apply no_double_ws_nil].
  - change (join (str " ") (w :: w2 :: ws))
      with (w ++ 0x20 :: join (str " ") (w2 :: ws)).
    apply no_double_ws_word_app; [done|].
    apply no_double_ws_cons; [|done].
    intros d Hd [_ Hsp]. inversion Hws; subst.
    eapply join_words_head in Hd; [congruence | done].
Qed.

Lemma collapse_ws_tidy s :
  no_outer_ws (collapse_ws s) ∧ no_double_ws (collapse_ws s).
Proof.
  unfold collapse_ws. pose proof (split_ws_words s) as Hws.
  split; [split|].
  - intros c. destruct Hws as [|w ws Hw _]; [done|]. by apply join_words_head.
  - intros c. by apply join_words_last.
  - by apply join_words_no_double.
Qed.

End Tidy.

(** ** The derivative matcher decides the language *)

Section Regex.

Lemma lang_cls_inv p s : lang (Cls p) s ↔ ∃ c, s = [c] ∧ p c = true.
Proof.
  split.
  - inversion 1; subst. eauto.
  - intros (c & -> & Hc). by constructor.
Qed.

Lemma lang_cat_inv r1 r2 s :
  lang (Cat r1 r2) s ↔ ∃ s1 s2, s = s1 ++ s2 ∧ lang r1 s1 ∧ lang r2 s2.
Proof.
  split.
  - inversion 1; subst. eauto.
  - intros (s1 & s2 & -> & H1 & H2). by constructor.
Qed.

Lemma lang_alt_inv r1 r2 s : lang (Alt r1 r2) s ↔ lang r1 s ∨ lang r2 s.
Proof.
  split.
  - inversion 1; subst; auto.
  - intros [H|H]; [by apply lang_alt_l | by apply lang_alt_r].
Qed.

Lemma nullable_lang r : nullable r = true ↔ lang r [].
Proof.
  induction r as [| |p|r1 IH1 r2 IH2|r1 IH1 r2 IH2|r IH]; simpl.
  - split; [done | inversion 1].
  - split; [constructor | done].
  - split; [done | inversion 1].
  - rewrite andb_true_iff, IH1, IH2, lang_cat_inv. split.
    + intros [H1 H2]. by exists [], [].
    + intros (s1 & s2 & E & H1 & H2). symmetry in E.
      apply app_eq_nil in E as [-> ->]. done.
  - by rewrite orb_true_iff, IH1, IH2, lang_alt_inv.
  - split; [constructor | done].
Qed.

Lemma lang_star_cons r c s :
  lang (Star r) (c :: s) →
  ∃ s1 s2, s = s1 ++ s2 ∧ lang r (c :: s1) ∧ lang (Star r) s2.
Proof.
  intros H. remember (Star r) as r' eqn:Er. remember (c :: s) as t eqn:Et.
  revert Er Et. induction H as [| | | | | |r0 s1 s2 H1 _ H2 IH2]; try done.
  intros [= ->] Et. destruct s1 as [|a s1]; simpl in Et.
  - by apply IH2.
  - injection Et as -> <-. by exists s1, s2.
Qed.

Lemma deriv_lang c r s : lang (deriv c r) s ↔ lang r (c :: s).
Proof.
  revert s.
  induction r as [| |p|r1 IH1 r2 IH2|r1 IH1 r2 IH2|r IH]; intros s; simpl.
  - split; inversion 1.
  - split; inversion 1.
  - destruct (p c) eqn:Hp; split; inversion 1; subst.
    + by constructor.
    + constructor.
    + congruence.
  - assert (lang (Cat (deriv c r1) r2) s ↔
            ∃ s1 s2, s = s1 ++ s2 ∧ lang r1 (c :: s1) ∧ lang r2 s2) as Hl.
    { rewrite lang_cat_inv. by setoid_rewrite IH1. }
    rewrite (lang_cat_inv r1 r2). split.
    + intros H.
      assert (lang (Cat (deriv c r1) r2) s
              ∨ (nullable r1 = true ∧ lang (deriv c r2) s)) as [H'|[Hn H']].
      { destruct (nullable r1); [|by left].
        apply lang_alt_inv in H as [H|H]; [by left | by right]. }
      * apply Hl in H' as (s1 & s2 & -> & H1 & H2). by exists (c :: s1), s2.
      * exists [], (c :: s). split; [done|].
        split; [by apply nullable_lang | by apply IH2].
    + intros (s1 & s2 & E & H1 & H2). destruct s1 as [|a s1]; simpl in E.
      * subst s2. apply nullable_lang in H1. rewrite H1.
        apply lang_alt_r. by apply IH2.
      * injection E as <- ->.
        assert (lang (Cat (deriv c r1) r2) (s1 ++ s2)) as Hc
          by (apply Hl; eauto).
        destruct (nullable r1); [by apply lang_alt_l | done].
  - by rewrite !lang_alt_inv, IH1, IH2.
  - rewrite lang_cat_inv. setoid_rewrite IH. split.
    + intros (s1 & s2 & -> & H1 & H2). by apply (lang_star_app _ (c :: s1) s2).
    + apply lang_star_cons.
Qed.

Lemma accepts_lang r s : accepts r s = true ↔ lang r s.
Proof.
  revert r. induction s as [|c s IH]; intros r; simpl.
  - apply nullable_lang.
  - by rewrite IH, deriv_lang.
Qed.

(** Repetitions of a character class. *)
Lemma lang_star_cls p s : lang (Star (Cls p)) s ↔ Forall (λ c, p c = true) s.
Proof.
  split.
  - induction s as [|c s IH]; [constructor|].
    intros H. apply lang_star_cons in H as (s1 & s2 & -> & H1 & H2).
    apply lang_cls_inv in H1 as (c' & [= <- ->] & Hc).
    constructor; [done | by apply IH].
  - induction 1 as [|c s Hc _ IH]; [constructor|].
    apply (lang_star_app _ [c] s); [by constructor | done].
Qed.

Lemma lang_plus_cls p s :
  lang (Plus (Cls p)) s ↔ s ≠ [] ∧ Forall (λ c, p c = true) s.
Proof.
  unfold Plus. rewrite lang_cat_inv. split.
  - intros (s1 & s2 & -> & H1 & H2).
    apply lang_cls_inv in H1 as (c & -> & Hc). apply lang_star_cls in H2.
    split; [done | by constructor].
  - intros [Hne H]. destruct H as [|c s Hc Hs]; [done|].
    exists [c], s. split; [done|].
    split; [by constructor | by apply lang_star_cls].
Qed.

Lemma lang_at_least_cls n p s :
  lang (AtLeast n (Cls p)) s ↔ (n ≤ length s)%nat ∧ Forall (λ c, p c = true) s.
Proof.
  revert s. induction n as [|n IH]; intros s; simpl.
  - rewrite lang_star_cls. split; [intros; split; [lia|done] | by intros []].
  - rewrite lang_cat_inv. split.
    + intros (s1 & s2 & -> & H1 & H2).
      apply lang_cls_inv in H1 as (c & -> & Hc). apply IH in H2 as [Hn Hs].
      simpl. split; [lia | by constructor].
    + intros [Hn H]. destruct H as [|c s Hc Hs]; simpl in Hn; [lia|].
      exists [c], s. split; [done|].
      split; [by constructor | apply IH; split; [lia | done]].
Qed.

Lemma lang_chr c s : lang (Chr c) s ↔ s = [c].
Proof.
  unfold Chr. rewrite lang_cls_inv. split.
  - intros (c' & -> & Hc). apply N.eqb_eq in Hc. by subst.
  - intros ->. exists c. split; [done | apply N.eqb_refl].
Qed.

End Regex.
(** ** Trimming *)

Section Strip.

Lemma lstrip_spec s :
  ∃ p, s = p ++ lstrip s ∧ blank p
       ∧ ∀ c, head (lstrip s) = Some c → isspace c = false.
Proof.
  induction s as [|a s (p & E & Hp & Hh)]; simpl.
  - exists []. split; [done|]. split; [constructor | done].
  - destruct (isspace a) eqn:Ha.
    + exists (a :: p). split; [by rewrite E at 1|]. split; [by constructor|done].
    + exists []. split; [done|]. split; [constructor|]. by intros c [= <-].
Qed.

Lemma lstrip_last s c :
  last (lstrip s) = Some c → last s = Some c.
Proof.
  destruct (lstrip_spec s) as (p & E & _ & _). intros H.
  rewrite E, last_app, H. done.
Qed.

Lemma strip_spec s :
  ∃ p q, s = p ++ strip s ++ q ∧ blank p ∧ blank q ∧ no_outer_ws (strip s).
Proof.
  unfold strip, rstrip.
  destruct (lstrip_spec s) as (p & E & Hp & Hh).
  destruct (lstrip_spec (reverse (lstrip s))) as (q & E' & Hq & Hh').
  exists p, (reverse q). split; [|split; [done|split]].
  - rewrite <- reverse_app, <- E', reverse_involutive. done.
  - unfold blank in *. rewrite Forall_forall in *. intros c Hc.
    apply Hq. by apply elem_of_reverse.
  - split; intros c.
    + rewrite head_reverse. intros Hl. apply lstrip_last in Hl.
      rewrite last_reverse in Hl. by apply Hh.
    + rewrite last_reverse. apply Hh'.
Qed.

Lemma strip_tidy s : no_outer_ws (strip s).
Proof. by destruct (strip_spec s) as (? & ? & _ & _ & _ & ?). Qed.

Lemma strip_elem_of s c : c ∈ strip s → c ∈ s.
Proof.
  destruct (strip_spec s) as (p & q & E & _). intros H. rewrite E.
  rewrite !elem_of_app. auto.
Qed.

Lemma strip_nil : strip [] = [].
Proof. reflexivity. Qed.

End Strip.
(** ** The e-mail pattern *)

Section EmailPattern.

Lemma is_alpha_spec c : is_alpha c = true ↔ ascii_letter c.
Proof.
  unfold is_alpha, ascii_letter.
  rewrite orb_true_iff, !andb_true_iff, !N.leb_le. done.
Qed.

Lemma is_digit_spec c : is_digit c = true ↔ ascii_digit c.
Proof.
  unfold is_digit, ascii_digit. by rewrite andb_true_iff, !N.leb_le.
Qed.

Lemma local_class_spec c : local_class c = true ↔ local_char c.
Proof.
  unfold local_class, local_char.
  rewrite !orb_true_iff, is_alpha_spec, is_digit_spec, !N.eqb_eq.
  rewrite !elem_of_cons, elem_of_nil. tauto.
Qed.

Lemma domain_class_spec c : domain_class c = true ↔ domain_char c.
Proof.
  unfold domain_class, domain_char.
  rewrite !orb_true_iff, is_alpha_spec, is_digit_spec, !N.eqb_eq.
  rewrite !elem_of_cons, elem_of_nil. tauto.
Qed.

Lemma Forall_class (p : cp → bool) (P : cp → Prop) s :
  (∀ c, p c = true ↔ P c) → Forall (λ c, p c = true) s ↔ Forall P s.
Proof. intros H. apply Forall_proper; [intros c; apply H | done]. Qed.

Lemma accepts_email_pattern t :
  accepts email_pattern t = true ↔ email_shape t.
Proof.
  rewrite accepts_lang. unfold email_pattern, email_shape. split.
  - intros H.
    apply lang_cat_inv in H as (loc & t1 & -> & Hloc & H).
    apply lang_cat_inv in H as (at' & t2 & -> & Hat & H).
    apply lang_cat_inv in H as (dom & t3 & -> & Hdom & H).
    apply lang_cat_inv in H as (dot & tld & -> & Hdot & Htld).
    apply lang_chr in Hat as ->. apply lang_chr in Hdot as ->.
    apply lang_plus_cls in Hloc as [? Hloc], Hdom as [? Hdom].
    apply lang_at_least_cls in Htld as [? Htld].
    exists loc, dom, tld. split; [done|].
    rewrite (Forall_class _ _ _ local_class_spec) in Hloc.
    rewrite (Forall_class _ _ _ domain_class_spec) in Hdom.
    rewrite (Forall_class _ _ _ is_alpha_spec) in Htld. done.
  - intros (loc & dom & tld & -> & ? & Hloc & ? & Hdom & ? & Htld).
    rewrite <- (Forall_class _ _ _ local_class_spec) in Hloc.
    rewrite <- (Forall_class _ _ _ domain_class_spec) in Hdom.
    rewrite <- (Forall_class _ _ _ is_alpha_spec) in Htld.
    repeat (apply lang_cat).
    + by apply lang_plus_cls.
    + by apply lang_chr.
    + by apply lang_plus_cls.
    + by apply lang_chr.
    + by apply lang_at_least_cls.
Qed.

(** After trimming, [$] can only hold at the very end. *)
Lemma match_to_end_tidy r t :
  no_outer_ws t → match_to_end r t = accepts r t.
Proof.
  intros [_ Hl]. unfold match_to_end.
  destruct (last t) as [c|] eqn:E; [|by rewrite orb_false_r].
  specialize (Hl c eq_refl).
  destruct (N.eq_dec c 0x0A) as [->|Hne]; [done|].
  assert (match c with 0x0A => accepts r (removelast t) | _ => false end
          = false) as ->; [|by rewrite orb_false_r].
  clear -Hne.
  repeat match goal with
         | |- context [match ?p with _ => _ end] => destruct p
         end; congruence.
Qed.

Lemma validate_email_shape s : validate_email s = true ↔ email_shape (strip s).
Proof.
  unfold validate_email. destruct s as [|c s]; simpl negb; cbv iota.
  - split; [done|]. rewrite strip_nil.
    intros (loc & ? & ? & E & _). by destruct loc.
  - rewrite match_to_end_tidy by apply strip_tidy.
    apply accepts_email_pattern.
Qed.

Lemma email_shape_at t : email_shape t → 0x40 ∈ t.
Proof.
  intros (loc & dom & tld & -> & _). rewrite !elem_of_app, list_elem_of_singleton.
  auto.
Qed.

Lemma email_shape_tld t : email_shape t → has_tld t.
Proof.
  intros (loc & dom & tld & -> & _ & _ & _ & _ & ? & ?).
  exists (loc ++ [0x40] ++ dom), tld. by rewrite <- !app_assoc.
Qed.

End EmailPattern.

(** ** Where the characters of a cleaned tag string come from *)

Section CleanTags.

Lemma replace_from_Forall (P : cp → Prop) old new k s :
  Forall P new → Forall P s → Forall P (replace_from old new k s).
Proof.
  intros Hnew Hs. revert k.
  induction Hs as [|c s Hc Hs IH]; intros k; cbn [replace_from]; [done|].
  destruct k as [|k]; [|apply IH].
  destruct (starts_with old (c :: s)).
  - apply Forall_app. split; [done | apply IH].
  - constructor; [done | apply IH].
Qed.

Lemma replace_elem_of old s c : c ∈ replace old [] s → c ∈ s.
Proof.
  revert c. apply Forall_forall. apply replace_from_Forall; [done|].
  by apply Forall_forall.
Qed.

Lemma replace_single q s : replace [q] [] s = filter (λ c, c ≠ q) s.
Proof.
  unfold replace. induction s as [|c s IH]; [done|]. simpl.
  rewrite andb_true_r. destruct (N.eqb_spec q c) as [->|Hne].
  - rewrite filter_cons_False by (intros H; by apply H). apply IH.
  - rewrite filter_cons_True by congruence. by rewrite IH.
Qed.

(** The text from which the quotes have been taken out. *)
Lemma unquoted_elem_of s c :
  c ∈ foldl (λ s quote, replace quote [] s) s quotes_to_remove →
  c ∈ s ∧ c ≠ 0x22 ∧ c ≠ 0x27.
Proof.
  unfold quotes_to_remove. cbn [foldl]. intros H.
  apply replace_elem_of in H. rewrite !replace_single in H.
  rewrite !list_elem_of_filter in H. tauto.
Qed.

Lemma re_split_from_Forall (P : cp → Prop) issep cur s :
  Forall P cur → Forall P s → Forall (Forall P) (re_split_from issep cur s).
Proof.
  intros Hcur Hs. revert cur Hcur.
  induction Hs as [|c s Hc Hs IH]; intros cur Hcur; simpl.
  - by constructor.
  - destruct (issep c).
    + constructor; [done | by apply IH].
    + apply IH. apply Forall_app. split; [done | by constructor].
Qed.

Lemma split_ws_from_Forall (P : cp → Prop) cur s :
  Forall P cur → Forall P s → Forall (Forall P) (split_ws_from cur s).
Proof.
  intros Hcur Hs. revert cur Hcur.
  induction Hs as [|c s Hc Hs IH]; intros cur Hcur; simpl.
  - destruct cur; [done | by constructor].
  - destruct (isspace c).
    + destruct cur; simpl; [by apply IH|]. constructor; [done | by apply IH].
    + apply IH. apply Forall_app. split; [done | by constructor].
Qed.

Lemma join_Forall (P : cp → Prop) sep l :
  Forall P sep → Forall (Forall P) l → Forall P (join sep l).
Proof.
  intros Hsep. induction 1 as [|x l Hx Hl IH]; [done|].
  destruct l as [|y l]; [done|].
  change (join sep (x :: y :: l)) with (x ++ sep ++ join sep (y :: l)).
  rewrite !Forall_app. done.
Qed.

Lemma collapse_ws_Forall (P : cp → Prop) s :
  P 0x20 → Forall P s → Forall P (collapse_ws s).
Proof.
  intros Hsp Hs. apply join_Forall; [by constructor|].
  by apply split_ws_from_Forall.
Qed.

Lemma clean_each_Forall (P : cp → Prop) l :
  P 0x20 → Forall (Forall P) l → Forall (Forall P) (clean_each l).
Proof.
  intros Hsp. induction 1 as [|x l Hx Hl IH]; simpl; [done|].
  destruct (truthy _); [|done].
  constructor; [by apply collapse_ws_Forall | done].
Qed.

Lemma surviving_tags_Forall (P : cp → Prop) s :
  P 0x20 →
  (∀ c, c ∈ s → c ≠ 0x22 → c ≠ 0x27 → P c) →
  Forall (Forall P) (surviving_tags s).
Proof.
  intros Hsp Hs. unfold surviving_tags.
  apply clean_each_Forall; [done|]. apply re_split_from_Forall; [done|].
  apply Forall_forall. intros c Hc.
  apply unquoted_elem_of in Hc as (Hc & ? & ?).
  apply Hs; [by apply strip_elem_of | done | done].
Qed.

(** The value of [clean_tags] and its effect on the counters. *)
Lemma clean_tags_eq s st :
  clean_tags s st =
    (join (str ", ") (surviving_tags s),
     match surviving_tags s with [] => st | _ => incr_tags_cleaned st end).
Proof.
  unfold clean_tags. destruct s as [|c s]; [done|]. simpl negb. cbv iota.
  destruct (surviving_tags (c :: s)); done.
Qed.

Lemma clean_tags_Forall (P : cp → Prop) s st :
  P 0x20 → P 0x2C →
  (∀ c, c ∈ s → c ≠ 0x22 → c ≠ 0x27 → P c) →
  Forall P (clean_tags s st).1.
Proof.
  intros Hsp Hco Hs. rewrite clean_tags_eq. simpl.
  apply join_Forall; [by repeat constructor|].
  by apply surviving_tags_Forall.
Qed.

End CleanTags.

(** The straight quotes are taken out of every tag string. *)
Lemma clean_tags_no_straight_quote (s : pystr) (st : Stats) :
  (0x22 ∉ fst (clean_tags s st)) ∧ (0x27 ∉ fst (clean_tags s st)).
Proof.
  assert (Forall (λ c, c ≠ 0x22 ∧ c ≠ 0x27) (clean_tags s st).1) as H.
  { apply clean_tags_Forall; [done | done | by intros]. }
  rewrite Forall_forall in H. split; intros Hin; apply H in Hin; tauto.
Qed.

(** ** Loops *)

Section Loops.

Context {A S : Type}.
Implicit Types (body : A → S → M S) (l : list A) (s : S) (st : Stats).

Lemma for_each_cons body x l s st :
  for_each body (x :: l) s st
  = for_each body l (body x s st).1 (body x s st).2.
Proof. simpl. unfold mbind, M_bind. by destruct (body x s st). Qed.

Lemma for_each_app body l1 l2 s st :
  for_each body (l1 ++ l2) s st
  = for_each body l2 (for_each body l1 s st).1 (for_each body l1 s st).2.
Proof.
  revert s st. induction l1 as [|x l1 IH]; intros s st; [done|].
  rewrite <- app_comm_cons, !for_each_cons. apply IH.
Qed.

(** A property of the local variables and the counters that every turn of
    the loop keeps holds when the loop is over. *)
Lemma for_each_inv (I : S → Stats → Prop) body l s st :
  I s st →
  (∀ x s st, x ∈ l → I s st → I (body x s st).1 (body x s st).2) →
  I (for_each body l s st).1 (for_each body l s st).2.
Proof.
  revert s st. induction l as [|x l IH]; intros s st H0 Hstep; [done|].
  rewrite for_each_cons. apply IH.
  - apply Hstep; [by left | done].
  - intros y s' st' Hy. apply Hstep. by right.
Qed.

End Loops.

(** ** One row of the conversion pass *)

Section ConvertRow.

Implicit Types (cm : ColumnMapping) (row : gmap string (list N))
  (cv : Conversion) (st : Stats).

Lemma clean_tags_value s st : (clean_tags s st).1 = cleaned_tags s.
Proof. by rewrite clean_tags_eq. Qed.

Lemma email_rejected_false e :
  email_rejected e = false ↔ validate_email e = true.
Proof.
  unfold email_rejected. destruct e as [|c e]; [done|]. simpl.
  by destruct (validate_email (c :: e)).
Qed.

Lemma convert_row_eq cm rd row cv st :
  convert_row cm rd row cv st =
    if email_rejected (row_email cm row) then (cv, incr_skipped st)
    else if rd && bool_decide (lower (row_email cm row) ∈ emails_processed cv)
    then (cv, incr_skipped st)
    else (mkConversion ({[lower (row_email cm row)]} ∪ emails_processed cv)
                       (written cv ++ [clean_row cm row]),
          incr_processed (clean_tags (row_get row (col_Tags cm)) st).2).
Proof.
  unfold convert_row. fold (row_email cm row).
  destruct (email_rejected _); [done|].
  destruct (_ && _); [done|].
  unfold mbind, M_bind, clean_row. rewrite clean_tags_eq. done.
Qed.

(** Every row written so far has an e-mail that passed the validator. *)
Lemma convert_row_written_valid cm rd row cv st :
  Forall (λ o, validate_email (Email o) = true) (written cv) →
  Forall (λ o, validate_email (Email o) = true)
         (written (convert_row cm rd row cv st).1).
Proof.
  intros H. rewrite convert_row_eq.
  destruct (email_rejected _) eqn:E; [done|].
  destruct (_ && _); [done|]. simpl.
  apply Forall_app. split; [done|]. constructor; [|done].
  by apply email_rejected_false.
Qed.

Lemma convert_written_valid f rd st :
  Forall (λ o, validate_email (Email o) = true) (convert f rd st).1.
Proof.
  unfold convert, mbind, M_bind.
  pose proof (for_each_inv
    (λ cv _, Forall (λ o, validate_email (Email o) = true) (written cv))
    (convert_row (column_mapping (fieldnames f)) rd) (rows f)
    (mkConversion ∅ []) st) as H.
  destruct (for_each _ _ _ _) as [cv st']. simpl in *. apply H; [done|].
  intros row cv' st'' _. apply convert_row_written_valid.
Qed.

End ConvertRow.

(** ** One row of the analysis pass *)

Section AnalyzeRow.

Implicit Types (row : gmap string (list N)) (a : Analysis) (st : Stats).

Lemma lower_nil s : lower s = [] ↔ s = [].
Proof.
  split; [|by intros ->]. destruct s as [|c s]; [done|].
  unfold lower. simpl. unfold lower_cp.
  repeat match goal with |- context [if ?b then _ else _] => destruct b end;
    done.
Qed.

Lemma truthy_true s : truthy s = true ↔ s ≠ [].
Proof. by destruct s. Qed.

Lemma truthy_false s : truthy s = false ↔ s = [].
Proof. by destruct s. Qed.

Lemma analyze_row_eq row a st :
  analyze_row row a st =
    let email := analysis_email row in
    let tags := strip (row_get row "TAGS") in
    if truthy email && validate_email email then
      if truthy tags then
        (mkAnalysis (emails_seen a ++ [email])
                    (count_tags (tags_counter a) (cleaned_tags tags)),
         (clean_tags tags (incr_total_rows st)).2)
      else (mkAnalysis (emails_seen a ++ [email]) (tags_counter a),
            incr_total_rows st)
    else if truthy email then (a, incr_invalid_emails (incr_total_rows st))
    else (a, incr_total_rows st).
Proof.
  unfold analyze_row, mbind, M_bind, modify. fold (analysis_email row). simpl.
  destruct (_ && _).
  - destruct (truthy (strip _)); [|done]. rewrite clean_tags_eq. done.
  - by destruct (truthy _).
Qed.

(** The analysis of one row leaves the counters of the conversion pass
    other than [tags_cleaned] as they are. *)
Lemma analyze_row_frame row a st :
  processed (analyze_row row a st).2 = processed st
  ∧ skipped (analyze_row row a st).2 = skipped st.
Proof.
  rewrite analyze_row_eq. simpl.
  destruct (_ && _).
  - destruct (truthy (strip _)); [|done]. rewrite clean_tags_eq. simpl.
    by destruct (surviving_tags _).
  - by destruct (truthy _).
Qed.

Lemma analyze_input_frame f st :
  processed (analyze_input f st).2 = processed st
  ∧ skipped (analyze_input f st).2 = skipped st.
Proof.
  unfold analyze_input, mbind, M_bind, modify.
  pose proof (for_each_inv
    (λ _ st', processed st' = processed st ∧ skipped st' = skipped st)
    analyze_row (rows f) (mkAnalysis [] ∅) st) as H.
  destruct (for_each _ _ _ _) as [a st']. simpl in *. apply H; [done|].
  intros row a' st'' _ [<- <-]. apply analyze_row_frame.
Qed.

End AnalyzeRow.

(** ** Duplicates in the conversion pass *)

Section Duplicates.

Variable cm : ColumnMapping.
Variable key : list N.

Implicit Types (row : gmap string (list N)) (cv : Conversion) (st : Stats).

Lemma rows_for_snoc out o :
  rows_for key (out ++ [o])
  = rows_for key out ++ (if decide (lower (Email o) = key) then [o] else []).
Proof.
  unfold rows_for. by rewrite filter_app.
Qed.

(** Rows with another address do not bring [key] in. *)
Lemma convert_row_other rd row cv st :
  (validate_email (row_email cm row) = true →
   lower (row_email cm row) ≠ key) →
  (key ∉ emails_processed cv) ∧ rows_for key (written cv) = [] →
  (key ∉ emails_processed (convert_row cm rd row cv st).1)
  ∧ rows_for key (written (convert_row cm rd row cv st).1) = [].
Proof.
  intros Hrow [Hk Hh]. rewrite convert_row_eq.
  destruct (email_rejected _) eqn:E; [done|].
  destruct (_ && _); [done|]. simpl.
  apply email_rejected_false in E. specialize (Hrow E). split.
  - rewrite not_elem_of_union, not_elem_of_singleton. split; [congruence | done].
  - rewrite rows_for_snoc, Hh. simpl. by rewrite decide_False.
Qed.

(** Once [key] has been seen, no further row for it is written. *)
Lemma convert_row_seen row cv st l :
  key ∈ emails_processed cv ∧ rows_for key (written cv) = l →
  key ∈ emails_processed (convert_row cm true row cv st).1
  ∧ rows_for key (written (convert_row cm true row cv st).1) = l.
Proof.
  intros [Hk Hh]. rewrite convert_row_eq.
  destruct (email_rejected _) eqn:E; [done|]. simpl.
  destruct (bool_decide _) eqn:Hd; [done|]. simpl.
  apply bool_decide_eq_false in Hd. split.
  - apply elem_of_union. by right.
  - rewrite rows_for_snoc, Hh. simpl. rewrite decide_False; [apply app_nil_r|].
    intros Heq. by rewrite Heq in Hd.
Qed.

Lemma convert_rows_first pre row rest st :
  validate_email (row_email cm row) = true →
  lower (row_email cm row) = key →
  (∀ r, r ∈ pre → validate_email (row_email cm r) = true →
        lower (row_email cm r) ≠ key) →
  rows_for key (written (for_each (convert_row cm true) (pre ++ row :: rest)
                 (mkConversion ∅ []) st).1)
  = [clean_row cm row].
Proof.
  intros Hv Hkey Hpre. rewrite for_each_app, for_each_cons.
  pose proof (for_each_inv
    (λ cv _, (key ∉ emails_processed cv) ∧ rows_for key (written cv) = [])
    (convert_row cm true) pre (mkConversion ∅ []) st) as H1.
  destruct (for_each (convert_row cm true) pre _ st) as [cv1 st1].
  simpl in *.
  destruct H1 as [Hk1 Hh1]; [split; [apply not_elem_of_empty | done]|..].
  { intros r cv st' Hr. apply convert_row_other. by apply Hpre. }
  pose proof (for_each_inv
    (λ cv _, key ∈ emails_processed cv ∧ rows_for key (written cv) = [clean_row cm row])
    (convert_row cm true) rest
    (convert_row cm true row cv1 st1).1 (convert_row cm true row cv1 st1).2)
    as H2.
  apply H2; [|intros r cv st' _; apply convert_row_seen].
  rewrite convert_row_eq.
  apply email_rejected_false in Hv. rewrite Hv, Hkey.
  rewrite bool_decide_eq_false_2 by done. simpl.
  split; [apply elem_of_union; left; by apply elem_of_singleton|].
  rewrite rows_for_snoc, Hh1. simpl. by rewrite decide_True.
Qed.

End Duplicates.

(** ** Lowercasing before validating *)

(** Case analysis on the comparisons of code points in the goal. *)
Ltac leb_cases :=
  repeat match goal with
         | |- context [N.leb ?a ?b] => destruct (N.leb_spec a b); try lia
         | |- context [N.eqb ?a ?b] => destruct (N.eqb_spec a b); try lia
         end;
  simpl; try done.

Section LowerValidate.

Lemma lstrip_id s :
  (∀ c, head s = Some c → isspace c = false) → lstrip s = s.
Proof. destruct s as [|c s]; [done|]. intros H. simpl. by rewrite (H c). Qed.

Lemma strip_id t : no_outer_ws t → strip t = t.
Proof.
  intros [Hh Hl]. unfold strip, rstrip. rewrite (lstrip_id t) by done.
  rewrite lstrip_id; [apply reverse_involutive|].
  intros c. rewrite head_reverse. apply Hl.
Qed.

Lemma strip_keeps s c : c ∈ s → isspace c = false → c ∈ strip s.
Proof.
  destruct (strip_spec s) as (p & q & E & Hp & Hq & _). intros Hc Hsp.
  rewrite E in Hc. unfold blank in *. rewrite Forall_forall in Hp, Hq.
  apply elem_of_app in Hc as [Hc|Hc]; [apply Hp in Hc; congruence|].
  apply elem_of_app in Hc as [Hc|Hc]; [done | apply Hq in Hc; congruence].
Qed.

Lemma isspace_ascii_lower c : isspace (ascii_lower c) = isspace c.
Proof.
  unfold ascii_lower.
  destruct (N.leb_spec 0x41 c), (N.leb_spec c 0x5A); simpl; try done.
  unfold isspace. leb_cases.
Qed.

Lemma lstrip_map s : lstrip (ascii_lower <$> s) = ascii_lower <$> lstrip s.
Proof.
  induction s as [|c s IH]; [done|]. simpl.
  rewrite isspace_ascii_lower. by destruct (isspace c).
Qed.

Lemma strip_map s : strip (ascii_lower <$> s) = ascii_lower <$> strip s.
Proof.
  unfold strip, rstrip.
  by rewrite lstrip_map, <- fmap_reverse, lstrip_map, fmap_reverse.
Qed.

Lemma nullable_deriv_case_blind r c :
  case_blind r → deriv (ascii_lower c) r = deriv c r.
Proof.
  induction r as [| |p|r1 IH1 r2 IH2|r1 IH1 r2 IH2|r IH]; simpl; try done.
  - intros H. by rewrite H.
  - intros [H1 H2]. by rewrite IH1, IH2.
  - intros [H1 H2]. by rewrite IH1, IH2.
  - intros H. by rewrite IH.
Qed.

Lemma case_blind_deriv r c : case_blind r → case_blind (deriv c r).
Proof.
  induction r as [| |p|r1 IH1 r2 IH2|r1 IH1 r2 IH2|r IH]; simpl; try done.
  - intros _. by destruct (p c).
  - intros [H1 H2]. destruct (nullable r1); simpl; auto.
  - intros [H1 H2]. auto.
  - intros H. auto.
Qed.

Lemma accepts_case_blind r s :
  case_blind r → accepts r (ascii_lower <$> s) = accepts r s.
Proof.
  revert r. induction s as [|c s IH]; intros r Hr; [done|]. simpl.
  rewrite nullable_deriv_case_blind by done. apply IH.
  by apply case_blind_deriv.
Qed.

Lemma is_alpha_ascii_lower c : is_alpha (ascii_lower c) = is_alpha c.
Proof.
  unfold ascii_lower.
  destruct (N.leb_spec 0x41 c), (N.leb_spec c 0x5A); simpl; try done.
  unfold is_alpha. leb_cases.
Qed.

Lemma is_digit_ascii_lower c : is_digit (ascii_lower c) = is_digit c.
Proof.
  unfold ascii_lower.
  destruct (N.leb_spec 0x41 c), (N.leb_spec c 0x5A); simpl; try done.
  unfold is_digit. leb_cases.
Qed.

Lemma eqb_ascii_lower k c :
  is_alpha k = false → (ascii_lower c =? k) = (c =? k).
Proof.
  unfold ascii_lower, is_alpha. intros Hk.
  destruct (N.eqb_spec c k) as [->|Hne].
  - destruct (N.leb_spec 0x41 k), (N.leb_spec k 0x5A); simpl in *;
      try apply N.eqb_refl. done.
  - destruct (N.leb_spec 0x41 c), (N.leb_spec c 0x5A); simpl;
      try (by apply N.eqb_neq).
    apply N.eqb_neq. intros <-. revert Hk. leb_cases.
Qed.

Lemma email_pattern_case_blind : case_blind email_pattern.
Proof.
  assert (∀ c, local_class (ascii_lower c) = local_class c) as Hl.
  { intros c. unfold local_class.
    by rewrite is_alpha_ascii_lower, is_digit_ascii_lower, !eqb_ascii_lower. }
  assert (∀ c, domain_class (ascii_lower c) = domain_class c) as Hd.
  { intros c. unfold domain_class.
    by rewrite is_alpha_ascii_lower, is_digit_ascii_lower, !eqb_ascii_lower. }
  assert (∀ k c, is_alpha k = false → (k =? ascii_lower c) = (k =? c)) as He.
  { intros k c Hk. rewrite !(N.eqb_sym k). by apply eqb_ascii_lower. }
  unfold email_pattern, Plus, Chr. cbn [case_blind AtLeast].
  repeat split; try done; try apply is_alpha_ascii_lower;
    intros c; by apply He.
Qed.

Lemma validate_email_ascii_lower s :
  validate_email (ascii_lower <$> s) = validate_email s.
Proof.
  unfold validate_email. destruct s as [|c s]; [done|].
  change (negb (truthy (ascii_lower <$> c :: s))) with false. cbv iota.
  change (negb (truthy (c :: s))) with false. cbv iota.
  rewrite strip_map.
  rewrite !match_to_end_tidy.
  - apply accepts_case_blind, email_pattern_case_blind.
  - apply strip_tidy.
  - rewrite <- strip_map. apply strip_tidy.
Qed.

Lemma lower_ascii_lower t :
  0x212A ∉ t → 0x130 ∉ t → lower t = ascii_lower <$> t.
Proof.
  unfold lower. induction t as [|c t IH]; [done|].
  rewrite !not_elem_of_cons. intros [Hk Ht] [Hi Ht'].
  rewrite bind_cons, fmap_cons, IH by done. unfold lower_cp, ascii_lower.
  destruct (_ && _); [done|].
  destruct (N.eqb_spec c 0x212A); [done|].
  destruct (N.eqb_spec c 0x130); [done|]. done.
Qed.

Lemma email_shape_ascii t : email_shape t → Forall (λ c, c < 0x80) t.
Proof.
  assert (∀ c, ascii_letter c → c < 0x80) as Hal
    by (unfold ascii_letter; lia).
  assert (∀ c, ascii_digit c → c < 0x80) as Hdi
    by (unfold ascii_digit; lia).
  intros (loc & dom & tld & -> & _ & Hloc & _ & Hdom & _ & Htld).
  repeat (apply Forall_app; split).
  - eapply Forall_impl; [done|]. intros c [?|[?|Hc]]; auto.
    rewrite !elem_of_cons, elem_of_nil in Hc. lia.
  - by repeat constructor.
  - eapply Forall_impl; [done|]. intros c [?|[?|Hc]]; auto.
    rewrite !elem_of_cons, elem_of_nil in Hc. lia.
  - by repeat constructor.
  - eapply Forall_impl; [done|]. auto.
Qed.

Lemma validate_email_non_ascii s c :
  c ∈ s → isspace c = false → ¬ c < 0x80 → validate_email s = false.
Proof.
  intros Hc Hsp Hc'. apply not_true_is_false. intros Hv.
  apply validate_email_shape, email_shape_ascii in Hv.
  rewrite Forall_forall in Hv. apply Hc', Hv. by apply strip_keeps.
Qed.

(** Without a KELVIN SIGN in the text, lowercasing it does not change the
    answer of the validator. *)
Lemma validate_email_lower t :
  0x212A ∉ t → validate_email (lower t) = validate_email t.
Proof.
  intros Hk. destruct (decide (0x130 ∈ t)) as [Hi|Hi].
  - rewrite (validate_email_non_ascii t 0x130) by (done || lia).
    apply (validate_email_non_ascii _ 0x307); [|done|lia].
    unfold lower. apply list_elem_of_bind. exists 0x130. split; [|done].
    simpl. apply elem_of_cons. right. by apply list_elem_of_singleton.
  - rewrite lower_ascii_lower by done. apply validate_email_ascii_lower.
Qed.

End LowerValidate.
(** ** Counting rows in the two passes *)

Section Counts.

Implicit Types (row : gmap string (list N)) (a : Analysis) (st : Stats)
  (cm : ColumnMapping) (cv : Conversion).

Lemma count_ext {A : Type} (p q : A → bool) (l : list A) :
  (∀ x, x ∈ l → p x = q x) → count p l = count q l.
Proof.
  induction l as [|x l IH]; intros H; [done|]. simpl.
  rewrite (H x) by (by left). rewrite IH; [done|].
  intros y Hy. apply H. by right.
Qed.

Lemma count_split {A : Type} (p q r : A → bool) (l : list A) :
  (∀ x, x ∈ l → r x = p x || q x ∧ p x && q x = false) →
  (count p l + count q l)%nat = count r l.
Proof.
  induction l as [|x l IH]; intros H; [done|]. simpl.
  rewrite <- IH by (intros y Hy; apply H; by right).
  destruct (H x) as [-> Hd]; [by left|].
  destruct (p x), (q x); simpl in *; try done; lia.
Qed.

Lemma clean_tags_invalid_emails s st :
  invalid_emails (clean_tags s st).2 = invalid_emails st.
Proof. rewrite clean_tags_eq. simpl. by destruct (surviving_tags s). Qed.

Lemma clean_tags_processed_skipped s st :
  processed (clean_tags s st).2 = processed st
  ∧ skipped (clean_tags s st).2 = skipped st.
Proof. rewrite clean_tags_eq. simpl. by destruct (surviving_tags s). Qed.

Lemma analyze_row_counts row a st :
  length (emails_seen (analyze_row row a st).1)
  = (length (emails_seen a) + (if analysis_valid row then 1 else 0))%nat
  ∧ invalid_emails (analyze_row row a st).2
    = (invalid_emails st + (if analysis_invalid row then 1 else 0))%nat.
Proof.
  rewrite analyze_row_eq. unfold analysis_invalid, analysis_valid. simpl.
  destruct (_ && _); simpl.
  - destruct (truthy (strip _)); simpl; rewrite ?length_app; simpl;
      rewrite ?clean_tags_invalid_emails; simpl; split; lia.
  - destruct (truthy _); simpl; split; lia.
Qed.

Lemma analyze_rows_counts rows a st :
  length (emails_seen (for_each analyze_row rows a st).1)
  = (length (emails_seen a) + count analysis_valid rows)%nat
  ∧ invalid_emails (for_each analyze_row rows a st).2
    = (invalid_emails st + count analysis_invalid rows)%nat.
Proof.
  revert a st. induction rows as [|row rows IH]; intros a st.
  - simpl. split; lia.
  - rewrite for_each_cons. simpl.
    destruct (IH (analyze_row row a st).1 (analyze_row row a st).2)
      as [-> ->].
    destruct (analyze_row_counts row a st) as [-> ->]. split; lia.
Qed.

Lemma analyze_input_counts f st :
  valid_emails (analyze_input f st).1 = count analysis_valid (rows f)
  ∧ invalid_emails (analyze_input f st).2
    = (invalid_emails st + count analysis_invalid (rows f))%nat.
Proof.
  unfold analyze_input, mbind, M_bind, modify, valid_emails.
  pose proof (analyze_rows_counts (rows f) (mkAnalysis [] ∅) st) as H.
  destruct (for_each _ _ _ _) as [a st']. simpl in *. done.
Qed.

Lemma convert_row_counts cm row cv st :
  processed (convert_row cm false row cv st).2
  = (processed st + (if conversion_accepts cm row then 1 else 0))%nat
  ∧ skipped (convert_row cm false row cv st).2
    = (skipped st + (if conversion_rejects cm row then 1 else 0))%nat.
Proof.
  rewrite convert_row_eq. unfold conversion_accepts, conversion_rejects.
  destruct (email_rejected _); simpl; [split; lia|].
  destruct (clean_tags_processed_skipped (row_get row (col_Tags cm)) st)
    as [-> ->].
  split; lia.
Qed.

Lemma convert_rows_counts cm rows cv st :
  processed (for_each (convert_row cm false) rows cv st).2
  = (processed st + count (conversion_accepts cm) rows)%nat
  ∧ skipped (for_each (convert_row cm false) rows cv st).2
    = (skipped st + count (conversion_rejects cm) rows)%nat.
Proof.
  revert cv st. induction rows as [|row rows IH]; intros cv st.
  - simpl. split; lia.
  - rewrite for_each_cons. simpl.
    destruct (IH (convert_row cm false row cv st).1
                 (convert_row cm false row cv st).2) as [-> ->].
    destruct (convert_row_counts cm row cv st) as [-> ->]. split; lia.
Qed.

Lemma convert_counts f st :
  processed (convert f false st).2
  = (processed st + count (conversion_accepts (column_mapping (fieldnames f)))
                          (rows f))%nat
  ∧ skipped (convert f false st).2
    = (skipped st + count (conversion_rejects (column_mapping (fieldnames f)))
                          (rows f))%nat.
Proof.
  unfold convert, mbind, M_bind.
  pose proof (convert_rows_counts (column_mapping (fieldnames f)) (rows f)
                (mkConversion ∅ []) st) as H.
  destruct (for_each _ _ _ _) as [cv st']. simpl in *. done.
Qed.

Lemma convert_invalid_emails f rd st :
  invalid_emails (convert f rd st).2 = invalid_emails st.
Proof.
  unfold convert, mbind, M_bind.
  pose proof (for_each_inv (λ _ st', invalid_emails st' = invalid_emails st)
    (convert_row (column_mapping (fieldnames f)) rd) (rows f)
    (mkConversion ∅ []) st) as H.
  destruct (for_each _ _ _ _) as [cv st']. simpl in *. apply H; [done|].
  intros row cv' st'' _ <-. rewrite convert_row_eq.
  destruct (email_rejected _); [done|]. destruct (_ && _); [done|]. simpl.
  apply clean_tags_invalid_emails.
Qed.

Lemma run_eq f keep st :
  run f keep st =
    ((analyze_input f st).1,
     (convert f (negb keep) (analyze_input f st).2).1,
     (convert f (negb keep) (analyze_input f st).2).2).
Proof.
  unfold run, mbind, M_bind. destruct (analyze_input f st) as [a st1].
  simpl. by destruct (convert f (negb keep) st1).
Qed.

Lemma truthy_lower s : truthy (lower s) = truthy s.
Proof.
  destruct s as [|c s]; [done|]. simpl. apply truthy_true.
  intros E. by pose proof (proj1 (lower_nil (c :: s)) E).
Qed.

Lemma column_mapping_email fields :
  "Email" ∉ fields → col_Email (column_mapping fields) = "Email Address".
Proof. intros H. simpl. by rewrite bool_decide_eq_false_2. Qed.

(** The two passes class a row alike when they read the same cell and it
    holds no KELVIN SIGN. *)
Lemma row_classes cm row :
  col_Email cm = "Email Address" →
  0x212A ∉ row_get row "Email Address" →
  analysis_valid row = conversion_accepts cm row
  ∧ conversion_rejects cm row = analysis_invalid row || blank_email row
  ∧ analysis_invalid row && blank_email row = false.
Proof.
  intros Hcol Hk.
  unfold analysis_invalid.
  unfold analysis_valid, conversion_accepts, conversion_rejects, blank_email,
    analysis_email, row_email, email_rejected.
  rewrite Hcol. set (t := strip (row_get row "Email Address")).
  assert (0x212A ∉ t) as Hkt by (intros H; by apply Hk, strip_elem_of).
  rewrite validate_email_lower by done.
  rewrite truthy_lower.
  by destruct (truthy t), (validate_email t).
Qed.

End Counts.

(** ** The conversion pass as a whole *)

Section ConvertWhole.

Variable cm : ColumnMapping.

Implicit Types (row : gmap string (list N)) (cv : Conversion) (st : Stats)
  (rows : list (gmap string (list N))).

(** Every row is either processed or skipped, and a processed row is a
    written row. *)
Lemma convert_row_accounts rd row cv st :
  (processed (convert_row cm rd row cv st).2
   + skipped (convert_row cm rd row cv st).2
   = S (processed st + skipped st))%nat
  ∧ (processed (convert_row cm rd row cv st).2 + length (written cv)
     = processed st + length (written (convert_row cm rd row cv st).1))%nat.
Proof.
  rewrite convert_row_eq.
  destruct (email_rejected _); [simpl; lia|].
  destruct (_ && _); [simpl; lia|]. simpl.
  destruct (clean_tags_processed_skipped (row_get row (col_Tags cm)) st)
    as [-> ->].
  rewrite length_app. simpl. lia.
Qed.

Lemma convert_rows_accounts rd rows cv st :
  (processed (for_each (convert_row cm rd) rows cv st).2
   + skipped (for_each (convert_row cm rd) rows cv st).2
   = processed st + skipped st + length rows)%nat
  ∧ (processed (for_each (convert_row cm rd) rows cv st).2
     + length (written cv)
     = processed st
       + length (written (for_each (convert_row cm rd) rows cv st).1))%nat.
Proof.
  revert cv st. induction rows as [|row rows IH]; intros cv st.
  - simpl. lia.
  - rewrite for_each_cons. simpl.
    destruct (IH (convert_row cm rd row cv st).1
                 (convert_row cm rd row cv st).2) as [H1 H2].
    destruct (convert_row_accounts rd row cv st) as [H3 H4]. lia.
Qed.

Lemma accepted_rows_cons row rows :
  accepted_rows cm (row :: rows)
  = if email_rejected (row_email cm row) then accepted_rows cm rows
    else row :: accepted_rows cm rows.
Proof.
  unfold accepted_rows. rewrite filter_cons. unfold conversion_accepts.
  by destruct (email_rejected (row_email cm row)).
Qed.

(** With duplicates kept, the written rows are the accepted rows, cleaned. *)
Lemma convert_rows_keep rows cv st :
  written (for_each (convert_row cm false) rows cv st).1
  = written cv ++ (clean_row cm <$> accepted_rows cm rows).
Proof.
  revert cv st. induction rows as [|row rows IH]; intros cv st.
  - simpl. by rewrite app_nil_r.
  - rewrite for_each_cons, IH, convert_row_eq, accepted_rows_cons.
    destruct (email_rejected _); simpl; [done|]. by rewrite <- app_assoc.
Qed.

(** In either mode the written rows are some of the accepted rows, cleaned,
    in file order. *)
Lemma convert_rows_sublist rd rows cv st :
  ∃ l, written (for_each (convert_row cm rd) rows cv st).1 = written cv ++ l
       ∧ l `sublist_of` (clean_row cm <$> accepted_rows cm rows).
Proof.
  revert cv st. induction rows as [|row rows IH]; intros cv st.
  - exists []. simpl. by rewrite app_nil_r.
  - rewrite for_each_cons.
    destruct (IH (convert_row cm rd row cv st).1
                 (convert_row cm rd row cv st).2) as (l & -> & Hl).
    rewrite convert_row_eq, accepted_rows_cons.
    destruct (email_rejected _); simpl; [by exists l|].
    destruct (_ && _); simpl.
    + exists l. split; [done|]. by apply sublist_cons.
    + exists (clean_row cm row :: l). rewrite <- app_assoc.
      split; [done|]. by apply sublist_skip.
Qed.

(** With duplicates removed, the written rows have different addresses, all
    of them in [emails_processed]. *)
Lemma convert_row_distinct row cv st :
  NoDup (seen_key <$> written cv)
  ∧ (∀ o, o ∈ written cv → seen_key o ∈ emails_processed cv) →
  NoDup (seen_key <$> written (convert_row cm true row cv st).1)
  ∧ (∀ o, o ∈ written (convert_row cm true row cv st).1 →
          seen_key o ∈ emails_processed (convert_row cm true row cv st).1).
Proof.
  intros [Hnd Hin]. rewrite convert_row_eq.
  destruct (email_rejected _); [done|]. simpl.
  destruct (bool_decide _) eqn:Hd; [done|]. simpl.
  apply bool_decide_eq_false in Hd. split.
  - rewrite fmap_app. apply NoDup_app. split; [done|]. split.
    + intros k Hk Hk'. apply list_elem_of_singleton in Hk'. subst k.
      apply list_elem_of_fmap in Hk as (o & Ho & Hin').
      apply Hd. unfold seen_key, clean_row in Ho. simpl in Ho. rewrite Ho.
      by apply Hin.
    + apply NoDup_singleton.
  - intros o Ho. apply elem_of_app in Ho as [Ho|Ho].
    + apply elem_of_union. right. by apply Hin.
    + apply list_elem_of_singleton in Ho. subst o.
      apply elem_of_union. left. by apply elem_of_singleton.
Qed.

End ConvertWhole.
Section ConvertOutput.

Implicit Types (row : gmap string (list N)) (cv : Conversion) (st : Stats)
  (f : InputFile).

(** What [convert] gives, through the loop. *)
Lemma convert_eq f rd st :
  convert f rd st =
    (written (for_each (convert_row (column_mapping (fieldnames f)) rd)
                       (rows f) (mkConversion ∅ []) st).1,
     (for_each (convert_row (column_mapping (fieldnames f)) rd)
               (rows f) (mkConversion ∅ []) st).2).
Proof. unfold convert, mbind, M_bind. by destruct (for_each _ _ _ _). Qed.

(** The rows that a turn of the loop writes do not depend on the counters. *)
Lemma convert_rows_any_counters cm rd rows cv st st' :
  (for_each (convert_row cm rd) rows cv st).1
  = (for_each (convert_row cm rd) rows cv st').1.
Proof.
  revert cv st st'. induction rows as [|row rows IH]; intros cv st st'.
  - done.
  - rewrite !for_each_cons.
    assert ((convert_row cm rd row cv st).1 = (convert_row cm rd row cv st').1)
      as ->.
    { rewrite !convert_row_eq. destruct (email_rejected _); [done|].
      by destruct (_ && _). }
    apply IH.
Qed.

Lemma strip_strip s : strip (strip s) = strip s.
Proof. apply strip_id, strip_tidy. Qed.

Lemma clean_name_idem s : clean_name (clean_name s) = clean_name s.
Proof.
  unfold clean_name. destruct s as [|c s]; [done|]. simpl.
  destruct (collapse_ws (c :: s)) eqn:E; [done|]. simpl.
  rewrite <- E. apply collapse_ws_idem.
Qed.

Lemma cleaned_tags_no_straight_quote s :
  Forall (λ c, c ≠ 0x22 ∧ c ≠ 0x27) (cleaned_tags s).
Proof.
  rewrite <- (clean_tags_value s init_stats).
  apply clean_tags_Forall; [done | done | by intros].
Qed.

End ConvertOutput.

(** X1: every row of the input is either processed or skipped by the conversion
    pass, and the rows written are as many as the rows processed. *)
Theorem convert_accounts_for_every_row
    (f : InputFile) (rd : bool) (st : Stats) :
  (processed (convert f rd st).2 + skipped (convert f rd st).2
   = processed st + skipped st + length (rows f))%nat
  ∧ processed (convert f rd st).2
    = (processed st + length (convert f rd st).1)%nat.
Proof.
  rewrite convert_eq. simpl.
  destruct (convert_rows_accounts (column_mapping (fieldnames f)) rd (rows f)
              (mkConversion ∅ []) st) as [H1 H2].
  simpl in H2. lia.
Qed.

(** X2: when duplicates are kept, the output holds one cleaned row for each row
    of the input with a valid e-mail, in the order of the input. *)
Theorem convert_keeps_accepted_rows (f : InputFile) (st : Stats) :
  (convert f false st).1
  = clean_row (column_mapping (fieldnames f))
      <$> accepted_rows (column_mapping (fieldnames f)) (rows f).
Proof. rewrite convert_eq. simpl. by rewrite convert_rows_keep. Qed.

(** X3: in either mode the rows of the output are cleaned rows of the input
    with a valid e-mail, and they come in the order of the input. *)
Theorem convert_writes_in_file_order
    (f : InputFile) (rd : bool) (st : Stats) :
  (convert f rd st).1
    `sublist_of` (clean_row (column_mapping (fieldnames f))
                    <$> accepted_rows (column_mapping (fieldnames f)) (rows f)).
Proof.
  rewrite convert_eq. simpl.
  destruct (convert_rows_sublist (column_mapping (fieldnames f)) rd (rows f)
              (mkConversion ∅ []) st) as (l & -> & Hl).
  done.
Qed.

(** X4: when duplicates are removed, no two rows of the output have the same
    e-mail up to case. *)
Theorem convert_writes_distinct_addresses (f : InputFile) (st : Stats) :
  NoDup (seen_key <$> (convert f true st).1).
Proof.
  rewrite convert_eq. simpl.
  pose proof (for_each_inv
    (λ cv _, NoDup (seen_key <$> written cv)
             ∧ (∀ o, o ∈ written cv → seen_key o ∈ emails_processed cv))
    (convert_row (column_mapping (fieldnames f)) true) (rows f)
    (mkConversion ∅ []) st) as H.
  apply H.
  - split; [constructor|]. intros o Ho. by apply elem_of_nil in Ho.
  - intros row cv st' _. apply convert_row_distinct.
Qed.

(** X5: the rows that the conversion writes do not depend on the counters it
    starts from: running the analysis first changes no row of the output. *)
Theorem convert_output_ignores_counters
    (f : InputFile) (keep : bool) (st st' : Stats) :
  (convert f (negb keep) st).1 = (convert f (negb keep) st').1
  ∧ (run f keep st).1.2 = (convert f (negb keep) st').1.
Proof.
  assert (∀ rd s s', (convert f rd s).1 = (convert f rd s').1) as H.
  { intros rd s s'. rewrite !convert_eq. simpl.
    by rewrite (convert_rows_any_counters _ _ _ _ s s'). }
  split; [apply H|]. rewrite run_eq. simpl. apply H.
Qed.

(** X6: every field of a written row is clean: the e-mail is valid and has no
    whitespace around it, cleaning a name again changes nothing, and the
    tags hold no straight quote. *)
Theorem convert_writes_clean_rows
    (f : InputFile) (rd : bool) (st : Stats) (o : OutRow) :
  o ∈ (convert f rd st).1 →
  validate_email (Email o) = true
  ∧ strip (Email o) = Email o
  ∧ clean_name (First_Name o) = First_Name o
  ∧ clean_name (Last_Name o) = Last_Name o
  ∧ Forall (λ c, c ≠ 0x22 ∧ c ≠ 0x27) (Tags o).
Proof.
  intros Ho.
  pose proof (convert_written_valid f rd st) as Hv.
  rewrite Forall_forall in Hv. split; [by apply Hv|].
  rewrite convert_eq in Ho. simpl in Ho.
  destruct (convert_rows_sublist (column_mapping (fieldnames f)) rd (rows f)
              (mkConversion ∅ []) st) as (l & E & Hl).
  rewrite E in Ho. simpl in Ho.
  eapply elem_of_sublist in Ho; [|done].
  apply list_elem_of_fmap in Ho as (row & -> & _). simpl.
  split; [apply strip_strip|]. split; [apply clean_name_idem|].
  split; [apply clean_name_idem|]. apply cleaned_tags_no_straight_quote.
Qed.

Lemma convert_writes_clean_rows_witness :
  validate_email (str "Ann@B.com") = true
  ∧ strip (str "Ann@B.com") = str "Ann@B.com"
  ∧ clean_name (str "Ann") = str "Ann"
  ∧ clean_name (str "Lee") = str "Lee"
  ∧ Forall (λ c, c ≠ 0x22 ∧ c ≠ 0x27) (str "VIP").
Proof.
  apply (convert_writes_clean_rows mixed_file true init_stats
           (mkOutRow (str "Ann@B.com") (str "Ann") (str "Lee") (str "VIP"))).
  replace (convert mixed_file true init_stats).1
    with [mkOutRow (str "Ann@B.com") (str "Ann") (str "Lee") (str "VIP")]
    by (by vm_compute).
  constructor.
Defined.
(** ** The tags that survive the cleaning *)

Section SurvivingTags.

Lemma re_split_from_no_sep (P : cp → Prop) issep cur s :
  Forall (λ c, issep c = false ∧ P c) cur → Forall P s →
  Forall (Forall (λ c, issep c = false ∧ P c)) (re_split_from issep cur s).
Proof.
  intros Hcur Hs. revert cur Hcur.
  induction Hs as [|c s Hc Hs IH]; intros cur Hcur; simpl.
  - by constructor.
  - destruct (issep c) eqn:E.
    + constructor; [done | by apply IH].
    + apply IH. apply Forall_app. split; [done | by constructor].
Qed.

Lemma clean_each_well_formed (P : cp → Prop) l :
  P 0x20 → Forall (Forall P) l →
  Forall (λ t, t ≠ [] ∧ no_outer_ws t ∧ no_double_ws t ∧ Forall P t)
         (clean_each l).
Proof.
  intros Hsp. induction 1 as [|x l Hx Hl IH]; simpl; [done|].
  destruct (truthy (collapse_ws x)) eqn:E; [|done].
  constructor; [|done]. destruct (collapse_ws_tidy x) as [H1 H2].
  split; [by apply truthy_true|]. split; [done|]. split; [done|].
  by apply collapse_ws_Forall.
Qed.

Lemma surviving_tags_well_formed s :
  Forall (λ t, t ≠ [] ∧ no_outer_ws t ∧ no_double_ws t
               ∧ Forall (λ c, is_delimiter c = false
                              ∧ c ≠ 0x22 ∧ c ≠ 0x27) t)
         (surviving_tags s).
Proof.
  unfold surviving_tags. apply clean_each_well_formed; [done|].
  apply (re_split_from_no_sep (λ c, c ≠ 0x22 ∧ c ≠ 0x27)); [done|].
  apply Forall_forall. intros c Hc.
  by apply unquoted_elem_of in Hc as (_ & ? & ?).
Qed.

(** Splitting at [, ] what was joined with [, ]. *)
Lemma split_sep_from_no_comma cur t rest :
  Forall (λ c, c ≠ 0x2C) t →
  split_sep_from (str ", ") 0 cur (t ++ rest)
  = split_sep_from (str ", ") 0 (cur ++ t) rest.
Proof.
  intros Ht. revert cur. induction Ht as [|c t Hc _ IH]; intros cur.
  - by rewrite app_nil_r.
  - rewrite <- app_comm_cons. cbn [split_sep_from].
    assert (starts_with (str ", ") (c :: t ++ rest) = false) as ->.
    { change (str ", ") with [0x2C; 0x20]. cbn [starts_with].
      destruct (N.eqb_spec 0x2C c); [congruence | done]. }
    rewrite IH. by rewrite <- app_assoc.
Qed.

Lemma split_sep_from_at_sep cur rest :
  split_sep_from (str ", ") 0 cur (0x2C :: 0x20 :: rest)
  = cur :: split_sep_from (str ", ") 0 [] rest.
Proof. reflexivity. Qed.

Lemma split_sep_join ts :
  Forall (Forall (λ c, c ≠ 0x2C)) ts → ts ≠ [] →
  split_sep (str ", ") (join (str ", ") ts) = ts.
Proof.
  unfold split_sep. induction 1 as [|t ts Ht Hts IH]; [done|]. intros _.
  destruct ts as [|t2 ts].
  - simpl. rewrite <- (app_nil_r t) at 1.
    by rewrite split_sep_from_no_comma.
  - change (join (str ", ") (t :: t2 :: ts))
      with (t ++ str ", " ++ join (str ", ") (t2 :: ts)).
    rewrite split_sep_from_no_comma by done.
    change (str ", " ++ join (str ", ") (t2 :: ts))
      with (0x2C :: 0x20 :: join (str ", ") (t2 :: ts)).
    rewrite split_sep_from_at_sep. by rewrite IH.
Qed.

Lemma foldl_count_nonempty counter ts :
  Forall (λ t, t ≠ []) ts →
  foldl (λ tc tag, if truthy tag then counter_add tc tag else tc) counter ts
  = foldl counter_add counter ts.
Proof.
  intros Hts. revert counter.
  induction Hts as [|t ts Ht _ IH]; intros counter; [done|]. simpl.
  apply truthy_true in Ht. rewrite Ht. apply IH.
Qed.

Lemma count_tags_surviving counter s :
  count_tags counter (cleaned_tags s)
  = foldl counter_add counter (surviving_tags s).
Proof.
  unfold count_tags, cleaned_tags.
  pose proof (surviving_tags_well_formed s) as Hwf.
  destruct (surviving_tags s) as [|t ts] eqn:E; [done|].
  rewrite split_sep_join; [|..|done].
  - apply foldl_count_nonempty. eapply Forall_impl; [done|]. by intros ? [? _].
  - eapply Forall_impl; [done|]. intros u (_ & _ & _ & Hu).
    eapply Forall_impl; [done|]. intros c [Hc _] ->. done.
Qed.

End SurvivingTags.

(** X7: every tag that survives the cleaning is not empty, has no whitespace
    at its ends and no two whitespace characters side by side, and holds no
    separator [, ; |] and no straight quote. *)
Theorem clean_tags_gives_well_formed_tags (s : pystr) :
  Forall (λ t, t ≠ [] ∧ no_outer_ws t ∧ no_double_ws t
               ∧ Forall (λ c, is_delimiter c = false
                              ∧ c ≠ 0x22 ∧ c ≠ 0x27) t)
         (surviving_tags s).
Proof. apply surviving_tags_well_formed. Qed.

(** X8: the analysis pass, which splits the cleaned tag string at [, ] again,
    counts exactly the tags that survived the cleaning, each one once for
    each time it occurs. *)
Theorem analysis_counts_surviving_tags
    (counter : gmap (list N) nat) (s : pystr) (st : Stats) :
  count_tags counter (clean_tags s st).1
  = foldl counter_add counter (surviving_tags s)
  ∧ (surviving_tags s ≠ [] →
     split_sep (str ", ") (clean_tags s st).1 = surviving_tags s).
Proof.
  rewrite clean_tags_value. split; [apply count_tags_surviving|].
  intros Hne. unfold cleaned_tags. apply split_sep_join; [|done].
  pose proof (surviving_tags_well_formed s) as Hwf.
  eapply Forall_impl; [done|]. intros u (_ & _ & _ & Hu).
  eapply Forall_impl; [done|]. intros c [Hc _] ->. done.
Qed.

Lemma analysis_counts_surviving_tags_witness :
  split_sep (str ", ") (clean_tags (str "VIP; New |x") init_stats).1
  = [str "VIP"; str "New"; str "x"].
Proof.
  rewrite (proj2 (analysis_counts_surviving_tags ∅ (str "VIP; New |x")
                    init_stats)).
  - reflexivity.
  - by vm_compute.
Defined.
(** ** What name cleaning keeps *)

Section NameKeeps.

Lemma concat_split_ws_from cur s :
  concat (split_ws_from cur s) = cur ++ filter (λ c, isspace c = false) s.
Proof.
  revert cur. induction s as [|c s IH]; intros cur; simpl.
  - destruct cur; simpl; by rewrite ?app_nil_r.
  - rewrite filter_cons. destruct (isspace c) eqn:E.
    + rewrite decide_False by congruence.
      destruct cur; simpl; by rewrite IH.
    + rewrite decide_True by done. rewrite IH. by rewrite <- app_assoc.
Qed.

Lemma filter_nospace w :
  nospace w → filter (λ c, isspace c = false) w = w.
Proof.
  induction 1 as [|c w Hc _ IH]; [done|].
  rewrite filter_cons, decide_True by done. by rewrite IH.
Qed.

Lemma filter_join_words ws :
  Forall word ws →
  filter (λ c, isspace c = false) (join (str " ") ws) = concat ws.
Proof.
  induction 1 as [|w ws [_ Hw] Hws IH]; [done|].
  destruct ws as [|w2 ws].
  - simpl. rewrite app_nil_r. by apply filter_nospace.
  - change (join (str " ") (w :: w2 :: ws))
      with (w ++ 0x20 :: join (str " ") (w2 :: ws)).
    rewrite filter_app, filter_cons, decide_False by done.
    rewrite IH, filter_nospace by done. done.
Qed.

Lemma collapse_ws_keeps s :
  filter (λ c, isspace c = false) (collapse_ws s)
  = filter (λ c, isspace c = false) s.
Proof.
  unfold collapse_ws. rewrite filter_join_words by apply split_ws_words.
  unfold split_ws. by rewrite concat_split_ws_from.
Qed.

Lemma length_join_cons sep x l :
  (length (join sep (x :: l)) ≤ length x + length sep + length (join sep l))%nat.
Proof.
  destruct l as [|y l]; [simpl; lia|].
  change (join sep (x :: y :: l)) with (x ++ sep ++ join sep (y :: l)).
  rewrite !length_app. lia.
Qed.

Lemma length_join_split_ws_from cur s :
  (length (join (str " ") (split_ws_from cur s)) ≤ length cur + length s)%nat.
Proof.
  revert cur. induction s as [|c s IH]; intros cur; simpl.
  - destruct cur; simpl; lia.
  - destruct (isspace c).
    + specialize (IH []). destruct cur as [|a cur]; [simpl in *; lia|].
      cbn [emit].
      destruct (split_ws_from [] s) as [|w ws] eqn:E; [simpl; lia|].
      pose proof (length_join_cons (str " ") (a :: cur) (w :: ws)) as H.
      change (length (str " ")) with 1%nat in H. simpl in *. lia.
    + specialize (IH (cur ++ [c])). rewrite length_app in IH. simpl in IH. lia.
Qed.

End NameKeeps.

(** X9: name cleaning only touches whitespace: the characters of the cleaned
    name that are not whitespace are those of the name, in order; and the
    cleaned name is never longer than the name. *)
Theorem clean_name_keeps_text (s : pystr) :
  filter (λ c, isspace c = false) (clean_name s)
  = filter (λ c, isspace c = false) s
  ∧ (length (clean_name s) ≤ length s)%nat.
Proof.
  unfold clean_name. destruct s as [|c s]; [done|]. simpl negb. cbv iota.
  split; [apply collapse_ws_keeps|].
  apply (length_join_split_ws_from [] (c :: s)).
Qed.

(** ** What a valid e-mail looks like *)

Section ValidEmail.

Lemma local_char_plain c :
  local_char c → c < 0x80 ∧ c ≠ 0x40 ∧ isspace c = false.
Proof.
  unfold local_char, ascii_letter, ascii_digit.
  rewrite !elem_of_cons, elem_of_nil.
  intros H. split; [lia|]. split; [lia|]. unfold isspace.
  destruct H as [H|[H|H]]; leb_cases.
Qed.

Lemma domain_char_plain c :
  domain_char c → c < 0x80 ∧ c ≠ 0x40 ∧ isspace c = false.
Proof.
  unfold domain_char, ascii_letter, ascii_digit.
  rewrite !elem_of_cons, elem_of_nil.
  intros H. split; [lia|]. split; [lia|]. unfold isspace.
  destruct H as [H|[H|H]]; leb_cases.
Qed.

Lemma ascii_letter_plain c :
  ascii_letter c → c < 0x80 ∧ c ≠ 0x40 ∧ isspace c = false.
Proof.
  unfold ascii_letter. intros H. split; [lia|]. split; [lia|].
  unfold isspace. destruct H; leb_cases.
Qed.

Lemma filter_at_none (P : cp → Prop) t :
  (∀ c, P c → c ≠ 0x40) → Forall P t → filter (λ c, c = 0x40) t = [].
Proof.
  intros HP. induction 1 as [|c t Hc _ IH]; [done|].
  rewrite filter_cons, decide_False by (by apply HP). done.
Qed.

Lemma email_shape_plain t :
  email_shape t →
  Forall (λ c, c < 0x80 ∧ isspace c = false) t
  ∧ length (filter (λ c, c = 0x40) t) = 1%nat.
Proof.
  intros (loc & dom & tld & -> & _ & Hloc & _ & Hdom & _ & Htld). split.
  - repeat (apply Forall_app; split).
    + eapply Forall_impl; [done|]. intros c Hc.
      by destruct (local_char_plain c Hc) as (? & _ & ?).
    + by repeat constructor.
    + eapply Forall_impl; [done|]. intros c Hc.
      by destruct (domain_char_plain c Hc) as (? & _ & ?).
    + by repeat constructor.
    + eapply Forall_impl; [done|]. intros c Hc.
      by destruct (ascii_letter_plain c Hc) as (? & _ & ?).
  - rewrite !filter_app.
    rewrite (filter_at_none local_char loc); [|intros c Hc|done].
    2: by destruct (local_char_plain c Hc) as (_ & ? & _).
    rewrite (filter_at_none domain_char dom); [|intros c Hc|done].
    2: by destruct (domain_char_plain c Hc) as (_ & ? & _).
    rewrite (filter_at_none ascii_letter tld); [|intros c Hc|done].
    2: by destruct (ascii_letter_plain c Hc) as (_ & ? & _).
    done.
Qed.

Lemma validate_email_strip s : validate_email (strip s) = validate_email s.
Proof.
  unfold validate_email. rewrite strip_strip.
  destruct s as [|c s]; [done|]. simpl negb at 2. cbv iota.
  destruct (strip (c :: s)) as [|a t] eqn:E; [done|]. done.
Qed.

End ValidEmail.

(** X10: an e-mail that passes the validator is, once trimmed, made of ASCII
    characters only, holds no whitespace and has exactly one at sign. *)
Theorem valid_email_is_plain (s : pystr) :
  validate_email s = true →
  Forall (λ c, c < 0x80 ∧ isspace c = false) (strip s)
  ∧ length (filter (λ c, c = 0x40) (strip s)) = 1%nat.
Proof. intros H. by apply email_shape_plain, validate_email_shape. Qed.

Lemma valid_email_is_plain_witness :
  Forall (λ c, c < 0x80 ∧ isspace c = false) (strip (str " ann@b.com "))
  ∧ length (filter (λ c, c = 0x40) (strip (str " ann@b.com "))) = 1%nat.
Proof. apply (valid_email_is_plain (str " ann@b.com ")). reflexivity. Defined.

(** X11: the validator gives the same answer on a text, on the text trimmed and
    on the text with its ASCII capitals lowercased: it does not matter
    whether the caller has trimmed the e-mail, and case does not count. *)
Theorem validate_email_ignores_trim_and_case (s : pystr) :
  validate_email (strip s) = validate_email s
  ∧ validate_email (ascii_lower <$> s) = validate_email s.
Proof. split; [apply validate_email_strip | apply validate_email_ascii_lower]. Qed.
(** ** The analysis pass as a whole *)

Section AnalysisWhole.

Implicit Types (row : gmap string (list N)) (a : Analysis) (st : Stats)
  (rows : list (gmap string (list N))).

Lemma clean_tags_total_rows s st :
  total_rows (clean_tags s st).2 = total_rows st.
Proof. rewrite clean_tags_eq. simpl. by destruct (surviving_tags s). Qed.

Lemma analyze_row_seen row a st :
  emails_seen (analyze_row row a st).1
  = emails_seen a
    ++ (if analysis_valid row then [analysis_email row] else [])
  ∧ total_rows (analyze_row row a st).2 = S (total_rows st).
Proof.
  rewrite analyze_row_eq. unfold analysis_valid. simpl.
  destruct (_ && _); simpl.
  - destruct (truthy (strip _)); simpl; [|done].
    by rewrite clean_tags_total_rows.
  - rewrite app_nil_r. by destruct (truthy _).
Qed.

Lemma analyze_rows_seen rows a st :
  emails_seen (for_each analyze_row rows a st).1
  = emails_seen a
    ++ (analysis_email <$> filter (λ row, analysis_valid row = true) rows)
  ∧ total_rows (for_each analyze_row rows a st).2
    = (total_rows st + length rows)%nat.
Proof.
  revert a st. induction rows as [|row rows IH]; intros a st.
  - simpl. rewrite app_nil_r. split; [done | lia].
  - rewrite for_each_cons.
    destruct (IH (analyze_row row a st).1 (analyze_row row a st).2)
      as [-> ->].
    destruct (analyze_row_seen row a st) as [-> ->].
    rewrite filter_cons. simpl.
    destruct (analysis_valid row); simpl.
    + rewrite <- app_assoc. split; [done | lia].
    + rewrite app_nil_r. split; [done | lia].
Qed.

Lemma analyze_input_seen f st :
  emails_seen (analyze_input f st).1
  = analysis_email <$> filter (λ row, analysis_valid row = true) (rows f)
  ∧ total_rows (analyze_input f st).2 = (total_rows st + length (rows f))%nat
  ∧ duplicates (analyze_input f st).2
    = size (filter (λ kv, (1 < kv.2)%nat)
                   (Counter (emails_seen (analyze_input f st).1))).
Proof.
  unfold analyze_input, mbind, M_bind, modify.
  pose proof (analyze_rows_seen (rows f) (mkAnalysis [] ∅) st) as H.
  destruct (for_each _ _ _ _) as [a st']. simpl in *. by destruct H.
Qed.

(** A lowercased text holds no ASCII capital. *)
Lemma lower_no_capital t : Forall (λ c, ¬ (0x41 <= c <= 0x5A)) (lower t).
Proof.
  unfold lower. induction t as [|c t IH]; [constructor|].
  rewrite bind_cons. apply Forall_app. split; [|done].
  unfold lower_cp.
  destruct (N.leb_spec 0x41 c), (N.leb_spec c 0x5A); simpl;
    try (repeat constructor; lia);
    destruct (N.eqb_spec c 0x212A); try (repeat constructor; lia);
    destruct (N.eqb_spec c 0x130); repeat constructor; lia.
Qed.

(** The counts kept by a [Counter]. *)
Lemma counter_lookup (l : list (list N)) (m : gmap (list N) nat) e :
  default 0%nat (foldl counter_add m l !! e)
  = (default 0%nat (m !! e) + occurrences e l)%nat.
Proof.
  unfold occurrences.
  revert m. induction l as [|x l IH]; intros m; simpl; [lia|].
  rewrite IH. unfold counter_add.
  destruct (decide (x = e)) as [->|Hne].
  - rewrite lookup_insert_eq, bool_decide_eq_true_2 by done. simpl. lia.
  - rewrite lookup_insert_ne, bool_decide_eq_false_2 by done. lia.
Qed.

Lemma counter_positive (l : list (list N)) (m : gmap (list N) nat) :
  (∀ e n, m !! e = Some n → (0 < n)%nat) →
  ∀ e n, foldl counter_add m l !! e = Some n → (0 < n)%nat.
Proof.
  revert m. induction l as [|x l IH]; intros m Hm; [done|]. simpl.
  apply IH. intros e n. unfold counter_add.
  destruct (decide (x = e)) as [->|Hne].
  - rewrite lookup_insert_eq. intros [= <-]. lia.
  - rewrite lookup_insert_ne by done. apply Hm.
Qed.

Lemma Counter_lookup_Some (l : list (list N)) e n :
  Counter l !! e = Some n ↔ n = occurrences e l ∧ (0 < n)%nat.
Proof.
  pose proof (counter_lookup l ∅ e) as H. rewrite lookup_empty in H.
  simpl in H. fold (Counter l) in H. split.
  - intros E. rewrite E in H. simpl in H. split; [done|].
    eapply (counter_positive l ∅); [|exact E].
    intros ? ?. by rewrite lookup_empty.
  - intros [-> Hpos]. destruct (Counter l !! e) as [n|] eqn:E; simpl in H.
    + by rewrite H.
    + lia.
Qed.

Lemma occurrences_zero e (l : list (list N)) : occurrences e l = 0%nat ↔ e ∉ l.
Proof.
  unfold occurrences. induction l as [|x l IH]; simpl.
  - split; [intros _; apply not_elem_of_nil | done].
  - rewrite not_elem_of_cons, <- IH.
    destruct (decide (x = e)) as [->|Hne].
    + rewrite bool_decide_eq_true_2 by done. split; [lia | by intros []].
    + rewrite bool_decide_eq_false_2 by done. simpl.
      split; [by split; [congruence|] | by intros []].
Qed.



End AnalysisWhole.

(** X12: the analysis pass counts every row; each row has a valid e-mail, an
    invalid one or none; and each e-mail it records as valid passes the
    validator and holds no ASCII capital. *)
Theorem analyze_input_accounts_for_every_row (f : InputFile) (st : Stats) :
  total_rows (analyze_input f st).2 = (total_rows st + length (rows f))%nat
  ∧ (valid_emails (analyze_input f st).1
     + invalid_emails (analyze_input f st).2
     + count blank_email (rows f)
     = invalid_emails st + length (rows f))%nat
  ∧ Forall (λ e, validate_email e = true
                 ∧ Forall (λ c, ¬ (0x41 <= c <= 0x5A)) e)
           (emails_seen (analyze_input f st).1).
Proof.
  destruct (analyze_input_seen f st) as (Hseen & Htot & _).
  destruct (analyze_input_counts f st) as [Hv Hi].
  split; [done|]. split.
  - rewrite Hv, Hi. clear. induction (rows f) as [|row rows IH]; simpl; [lia|].
    assert (((if analysis_valid row then 1 else 0)
             + (if analysis_invalid row then 1 else 0)
             + (if blank_email row then 1 else 0))%nat = 1%nat) as Hrow.
    { unfold analysis_invalid, blank_email.
      unfold analysis_valid, analysis_email. rewrite truthy_lower.
      by destruct (truthy _), (validate_email _). }
    lia.
  - rewrite Hseen. apply Forall_fmap, Forall_forall. intros row Hrow.
    apply list_elem_of_filter in Hrow as [Hrow _]. simpl. split.
    + unfold analysis_valid in Hrow. by apply andb_true_iff in Hrow as [_ ?].
    + apply lower_no_capital.
Qed.

(** ** Distinct addresses in the two passes *)

Section DistinctAddresses.

Variable cm : ColumnMapping.

Implicit Types (row : gmap string (list N)) (cv : Conversion) (st : Stats)
  (rows : list (gmap string (list N))).

Lemma Counter_dom (l : list (list N)) : dom (Counter l) = list_to_set l.
Proof.
  apply set_eq. intros e. rewrite elem_of_dom, elem_of_list_to_set.
  split.
  - intros [n Hn]. apply Counter_lookup_Some in Hn as [-> Hpos].
    destruct (decide (e ∈ l)) as [|Hn]; [done|].
    apply occurrences_zero in Hn. lia.
  - intros He. exists (occurrences e l). apply Counter_lookup_Some.
    split; [done|]. destruct (occurrences e l) eqn:E; [|lia].
    by apply occurrences_zero in E.
Qed.

Lemma Counter_size (l : list (list N)) :
  size (Counter l) = size (list_to_set l : gset (list N)).
Proof. by rewrite <- Counter_dom, size_dom. Qed.

(** With duplicates removed, [emails_processed] is the set of the addresses
    of the written rows, which are all different. *)
Lemma convert_row_seen_set row cv st :
  NoDup (seen_key <$> written cv)
  ∧ emails_processed cv = list_to_set (seen_key <$> written cv) →
  NoDup (seen_key <$> written (convert_row cm true row cv st).1)
  ∧ emails_processed (convert_row cm true row cv st).1
    = list_to_set (seen_key <$> written (convert_row cm true row cv st).1).
Proof.
  intros [Hnd Hset]. rewrite convert_row_eq.
  destruct (email_rejected _); [done|]. simpl.
  destruct (bool_decide _) eqn:Hd; [done|]. simpl.
  apply bool_decide_eq_false in Hd. rewrite fmap_app. simpl. split.
  - apply NoDup_app. split; [done|]. split; [|apply NoDup_singleton].
    intros k Hk Hk'. apply list_elem_of_singleton in Hk'. subst k.
    apply Hd. rewrite Hset. by apply elem_of_list_to_set.
  - rewrite list_to_set_snoc_L, Hset. apply union_comm_L.
Qed.

(** The addresses seen at the end are those of the rows with a valid
    e-mail. *)
Lemma convert_rows_seen_set rows cv st :
  emails_processed (for_each (convert_row cm true) rows cv st).1
  = emails_processed cv ∪ distinct_addresses cm rows.
Proof.
  unfold distinct_addresses.
  revert cv st. induction rows as [|row rows IH]; intros cv st.
  - simpl. by rewrite union_empty_r_L.
  - rewrite for_each_cons, IH, convert_row_eq, accepted_rows_cons.
    destruct (email_rejected _); [done|].
    rewrite fmap_cons, list_to_set_cons. unfold row_key at 1.
    destruct (bool_decide _) eqn:Hd; cbn [andb fst emails_processed].
    + apply bool_decide_eq_true in Hd.
      rewrite (assoc_L (∪)). f_equal.
      apply set_eq. intros k. rewrite elem_of_union, elem_of_singleton.
      split; [auto | intros [?| ->]; done].
    + rewrite (assoc_L (∪)). f_equal. apply union_comm_L.
Qed.

Lemma convert_rows_processed rows st :
  processed (for_each (convert_row cm true) rows (mkConversion ∅ []) st).2
  = (processed st + size (distinct_addresses cm rows))%nat.
Proof.
  pose proof (for_each_inv
    (λ cv _, NoDup (seen_key <$> written cv)
             ∧ emails_processed cv = list_to_set (seen_key <$> written cv))
    (convert_row cm true) rows (mkConversion ∅ []) st) as [Hnd Hset].
  { split; [constructor | done]. }
  { intros row cv st' _. apply convert_row_seen_set. }
  destruct (convert_rows_accounts cm true rows (mkConversion ∅ []) st)
    as [_ Hlen].
  rewrite convert_rows_seen_set in Hset. simpl in Hset, Hlen.
  rewrite union_empty_l_L in Hset.
  rewrite Hset, size_list_to_set, length_fmap by done. lia.
Qed.

(** The analysis and the conversion see the same addresses when they read
    the same cells and no cell holds a KELVIN SIGN. *)
Lemma analysis_addresses rows :
  col_Email cm = "Email Address" →
  (∀ row, row ∈ rows → 0x212A ∉ row_get row "Email Address") →
  analysis_email <$> filter (λ row, analysis_valid row = true) rows
  = row_key cm <$> accepted_rows cm rows.
Proof.
  intros Hcol. induction rows as [|row rows IH]; intros Hk; [done|].
  destruct (row_classes cm row Hcol) as (Hv & _); [apply Hk; by left|].
  specialize (IH (λ r Hr, Hk r (list_elem_of_further _ _ _ Hr))).
  rewrite filter_cons, accepted_rows_cons, Hv. unfold conversion_accepts.
  destruct (email_rejected (row_email cm row)).
  { by rewrite decide_False. }
  rewrite decide_True by done. rewrite !fmap_cons, IH. f_equal.
  unfold analysis_email, row_key, row_email. by rewrite Hcol.
Qed.

End DistinctAddresses.

(** X14: when duplicates are removed, the conversion processes as many contacts
    as there are different addresses, case apart, among the rows with a
    valid e-mail; the other rows are skipped. *)
Theorem convert_processes_distinct_addresses (f : InputFile) (st : Stats) :
  processed (convert f true st).2
  = (processed st
     + size (distinct_addresses (column_mapping (fieldnames f)) (rows f)))%nat
  ∧ (skipped (convert f true st).2
     + size (distinct_addresses (column_mapping (fieldnames f)) (rows f))
     = skipped st + length (rows f))%nat.
Proof.
  rewrite convert_eq. simpl.
  pose proof (convert_rows_processed (column_mapping (fieldnames f))
                (rows f) st) as Hp.
  destruct (convert_rows_accounts (column_mapping (fieldnames f)) true
              (rows f) (mkConversion ∅ []) st) as [Hall _].
  split; [done | lia].
Qed.

(** X15: on a file without a column named [Email] and without a KELVIN SIGN in
    its e-mails, a run that removes duplicates processes as many contacts
    as the analysis reports unique e-mails. *)
Theorem run_processes_unique_emails (f : InputFile) :
  "Email" ∉ fieldnames f →
  (∀ row, row ∈ rows f → 0x212A ∉ row_get row "Email Address") →
  processed (run f false init_stats).2
  = unique_emails (run f false init_stats).1.1.
Proof.
  intros Hcol Hk. rewrite run_eq. simpl. rewrite convert_eq. simpl.
  rewrite convert_rows_processed.
  destruct (analyze_input_frame f init_stats) as [-> _]. simpl.
  unfold unique_emails. rewrite Counter_size.
  destruct (analyze_input_seen f init_stats) as (-> & _).
  unfold distinct_addresses.
  by rewrite (analysis_addresses (column_mapping (fieldnames f)) (rows f)
                (column_mapping_email _ Hcol) Hk).
Qed.

Lemma run_processes_unique_emails_witness :
  processed (run mixed_file false init_stats).2 = 1%nat
  ∧ unique_emails (run mixed_file false init_stats).1.1 = 1%nat.
Proof.
  assert ("Email" ∉ fieldnames mixed_file) as Hcol
    by (apply (bool_decide_unpack _); by vm_compute).
  assert (∀ row, row ∈ rows mixed_file →
                 0x212A ∉ row_get row "Email Address") as Hk.
  { intros row Hrow. apply (bool_decide_unpack _).
    repeat (apply elem_of_cons in Hrow as [->|Hrow]; [by vm_compute|]).
    by apply elem_of_nil in Hrow. }
  pose proof (run_processes_unique_emails mixed_file Hcol Hk) as H.
  split; [reflexivity|]. by rewrite <- H.
Defined.
(** ** The default output file *)

Section DefaultOutput.

Lemma rfind_Some c s i : rfind c s = Some i → s !! i = Some c.
Proof.
  revert i. induction s as [|x s IH]; intros i; simpl; [done|].
  destruct (rfind c s) as [j|].
  - intros [= <-]. simpl. by apply IH.
  - destruct (N.eqb_spec x c) as [->|]; [|done]. by intros [= <-].
Qed.

(** A name is its stem followed by nothing or by a suffix that starts with
    a dot. *)
Lemma stem_suffix n :
  ∃ sfx, n = stem n ++ sfx ∧ (sfx = [] ∨ head sfx = Some 0x2E).
Proof.
  unfold stem. destruct (rfind 0x2E n) as [i|] eqn:E.
  - destruct (_ && _).
    + exists (drop i n). split; [by rewrite take_drop|]. right.
      apply rfind_Some in E. rewrite head_lookup, lookup_drop.
      by rewrite Nat.add_0_r.
    + exists []. split; [by rewrite app_nil_r | by left].
  - exists []. split; [by rewrite app_nil_r | by left].
Qed.

Lemma default_name_differs n : stem n ++ str "_convertkit_ready.csv" ≠ n.
Proof.
  destruct (stem_suffix n) as (sfx & E & Hs). intros H.
  rewrite E in H at 2. apply app_inv_head in H. subst sfx.
  destruct Hs as [Hs|Hs]; discriminate Hs.
Qed.

End DefaultOutput.

(** X16: a converter for a file that does not exist is not built, whatever the
    other arguments.  For a file that exists and no output path given, the
    output file is in the directory of the input file, its name is the stem
    of the input name followed by [_convertkit_ready.csv], and it is never
    the input file itself; an output path that is given is taken as it
    is.  The counters start at zero. *)
Theorem init_paths (input : Path) (output : option Path) (verbose : bool) :
  init input false output verbose = None
  ∧ (∀ c, init input true None verbose = Some c →
       input_file c = input
       ∧ parent (output_file c) = parent input
       ∧ name (output_file c)
         = stem (name input) ++ str "_convertkit_ready.csv"
       ∧ (∃ sfx, name input = stem (name input) ++ sfx)
       ∧ output_file c ≠ input_file c
       ∧ stats c = init_stats)
  ∧ (∀ p, ∃ c, init input true (Some p) verbose = Some c
               ∧ output_file c = p ∧ input_file c = input).
Proof.
  split; [done|]. split.
  - intros c [= <-]. simpl. repeat split; try done.
    + destruct (stem_suffix (name input)) as (sfx & E & _). by exists sfx.
    + intros H. apply (default_name_differs (name input)).
      by rewrite <- H at 2.
  - intros p. eexists. by repeat split.
Qed.

Lemma init_paths_witness :
  ∃ c, init (mkPath (str "exports") (str "subscribers.2024.csv")) true None
            false = Some c
       ∧ name (output_file c) = str "subscribers.2024_convertkit_ready.csv"
       ∧ output_file c ≠ input_file c.
Proof.
  eexists. split; [reflexivity|].
  destruct (proj1 (proj2 (init_paths
    (mkPath (str "exports") (str "subscribers.2024.csv")) None false))
    _ eq_refl) as (_ & _ & Hn & _ & Hd & _).
  split; [exact Hn | exact Hd].
Defined.
(** ** Which counters each pass touches *)

Section Counters.

Implicit Types (row : gmap string (list N)) (cv : Conversion) (st : Stats)
  (cm : ColumnMapping).

Lemma join_nil_words sep (ts : list (list N)) :
  Forall (λ t, t ≠ []) ts → join sep ts = [] → ts = [].
Proof.
  intros Hts. destruct Hts as [|t ts Ht Hts]; [done|].
  destruct ts as [|t2 ts]; simpl; [done|].
  intros H. apply app_eq_nil in H as [-> _]. done.
Qed.

(** A tag string survives as the empty string exactly when no tag
    survives. *)
Lemma cleaned_tags_truthy s :
  truthy (cleaned_tags s)
  = match surviving_tags s with [] => false | _ => true end.
Proof.
  unfold cleaned_tags. pose proof (surviving_tags_well_formed s) as Hwf.
  destruct (surviving_tags s) as [|t ts] eqn:E; [done|].
  apply truthy_true. intros H. apply join_nil_words in H; [done|].
  eapply Forall_impl; [done|]. by intros ? [? _].
Qed.

Lemma clean_tags_counters s st :
  (clean_tags s st).2
  = if truthy (cleaned_tags s) then incr_tags_cleaned st else st.
Proof.
  rewrite clean_tags_eq, cleaned_tags_truthy. simpl.
  by destruct (surviving_tags s).
Qed.

Lemma convert_row_tags_cleaned cm rd row cv st :
  (tags_cleaned (convert_row cm rd row cv st).2 + count has_tags (written cv)
   = tags_cleaned st
     + count has_tags (written (convert_row cm rd row cv st).1))%nat
  ∧ total_rows (convert_row cm rd row cv st).2 = total_rows st
  ∧ duplicates (convert_row cm rd row cv st).2 = duplicates st.
Proof.
  assert (∀ l o, count has_tags (l ++ [o])
                 = (count has_tags l + if has_tags o then 1 else 0)%nat) as Hc.
  { intros l o. induction l as [|x l IH]; simpl; [lia|]. rewrite IH. lia. }
  rewrite convert_row_eq.
  destruct (email_rejected _); [simpl; lia|].
  destruct (_ && _); [simpl; lia|]. simpl.
  rewrite Hc, clean_tags_counters. unfold has_tags, clean_row. simpl.
  destruct (truthy (cleaned_tags _)); simpl; lia.
Qed.

Lemma convert_rows_tags_cleaned cm rd rows cv st :
  (tags_cleaned (for_each (convert_row cm rd) rows cv st).2
   + count has_tags (written cv)
   = tags_cleaned st
     + count has_tags (written (for_each (convert_row cm rd) rows cv st).1))%nat
  ∧ total_rows (for_each (convert_row cm rd) rows cv st).2 = total_rows st
  ∧ duplicates (for_each (convert_row cm rd) rows cv st).2 = duplicates st.
Proof.
  revert cv st. induction rows as [|row rows IH]; intros cv st.
  - simpl. lia.
  - rewrite for_each_cons.
    destruct (IH (convert_row cm rd row cv st).1
                 (convert_row cm rd row cv st).2) as (H1 & -> & ->).
    destruct (convert_row_tags_cleaned cm rd row cv st) as (H2 & -> & ->).
    lia.
Qed.

End Counters.

(** X17: a conversion raises the tags-cleaned counter by the number of rows it
    writes with tags, so by no more than the number of contacts it
    processes. *)
Theorem convert_counts_rows_with_tags
    (f : InputFile) (rd : bool) (st : Stats) :
  tags_cleaned (convert f rd st).2
  = (tags_cleaned st + count has_tags (convert f rd st).1)%nat
  ∧ (tags_cleaned (convert f rd st).2 + processed st
     ≤ tags_cleaned st + processed (convert f rd st).2)%nat.
Proof.
  assert (∀ l, (count has_tags l ≤ length l)%nat) as Hle.
  { induction l as [|x l IH]; simpl; [lia|]. destruct (has_tags x); lia. }
  rewrite convert_eq. simpl.
  destruct (convert_rows_tags_cleaned (column_mapping (fieldnames f)) rd
              (rows f) (mkConversion ∅ []) st) as (H1 & _).
  destruct (convert_rows_accounts (column_mapping (fieldnames f)) rd
              (rows f) (mkConversion ∅ []) st) as (_ & H2).
  simpl in H1, H2.
  pose proof (Hle (written (for_each
    (convert_row (column_mapping (fieldnames f)) rd) (rows f)
    (mkConversion ∅ []) st).1)).
  lia.
Qed.

(** X18: the analysis leaves the processed and skipped counters as they are,
    and the conversion leaves the total-rows, duplicates and invalid-emails
    counters as they are. *)
Theorem passes_keep_the_other_counters
    (f : InputFile) (rd : bool) (st : Stats) :
  (processed (analyze_input f st).2 = processed st
   ∧ skipped (analyze_input f st).2 = skipped st)
  ∧ (total_rows (convert f rd st).2 = total_rows st
     ∧ duplicates (convert f rd st).2 = duplicates st
     ∧ invalid_emails (convert f rd st).2 = invalid_emails st).
Proof.
  split; [apply analyze_input_frame|].
  split; [|split; [|apply convert_invalid_emails]].
  - rewrite convert_eq. simpl.
    by destruct (convert_rows_tags_cleaned (column_mapping (fieldnames f)) rd
                   (rows f) (mkConversion ∅ []) st) as (_ & ? & _).
  - rewrite convert_eq. simpl.
    by destruct (convert_rows_tags_cleaned (column_mapping (fieldnames f)) rd
                   (rows f) (mkConversion ∅ []) st) as (_ & _ & ?).
Qed.
(** ** When no tag survives *)

Section NoTag.

Lemma starts_with_take p s :
  starts_with p s = true → take (length p) s = p.
Proof.
  revert s. induction p as [|a p IH]; intros [|b s]; simpl; try done.
  rewrite andb_true_iff, N.eqb_eq. intros [-> H]. by rewrite IH.
Qed.

(** Only characters of [old] are taken out by [replace]. *)
Lemma replace_from_keeps old new k s c :
  old ≠ [] → c ∉ old → Forall (λ x, x ∈ old) (take k s) →
  c ∈ s → c ∈ replace_from old new k s.
Proof.
  intros Hold Hc. revert k.
  induction s as [|x s IH]; intros k Hk Hin; [by apply elem_of_nil in Hin|].
  cbn [replace_from]. destruct k as [|k].
  - destruct (starts_with old (x :: s)) eqn:E.
    + destruct old as [|a old]; [done|].
      cbn [starts_with] in E. apply andb_true_iff in E as [Ea E].
      apply N.eqb_eq in Ea as ->. apply elem_of_app. right. apply IH.
      * cbn [length]. rewrite Nat.sub_succ, Nat.sub_0_r.
        rewrite (starts_with_take _ _ E).
        apply Forall_forall. intros y Hy. by right.
      * apply elem_of_cons in Hin as [->|Hin]; [|done].
        exfalso. apply Hc. by left.
    + apply elem_of_cons in Hin as [->|Hin]; [by left|].
      right. apply IH; [by rewrite take_0 | done].
  - cbn [take] in Hk. apply Forall_cons in Hk as [Hx Hk].
    apply IH; [done|].
    apply elem_of_cons in Hin as [->|Hin]; [done | done].
Qed.

Lemma replace_keeps old s c :
  old ≠ [] → c ∉ old → c ∈ s → c ∈ replace old [] s.
Proof.
  intros Hold Hc Hin. unfold replace.
  apply replace_from_keeps; [done | done | by rewrite take_0 | done].
Qed.

(** What is neither a straight quote, a comma nor a space is still there
    when the quotes have been taken out. *)
Lemma unquoted_keeps s c :
  c ∈ s → c ≠ 0x22 → c ≠ 0x27 → c ≠ 0x2C → c ≠ 0x20 →
  c ∈ foldl (λ s quote, replace quote [] s) s quotes_to_remove.
Proof.
  intros Hin H1 H2 H3 H4. unfold quotes_to_remove. cbn [foldl].
  repeat (apply replace_keeps;
          [done | rewrite ?elem_of_cons, elem_of_nil; tauto |]).
  done.
Qed.

Lemma re_split_from_keeps issep cur s c :
  issep c = false → c ∈ cur ∨ c ∈ s →
  ∃ t, t ∈ re_split_from issep cur s ∧ c ∈ t.
Proof.
  intros Hc. revert cur. induction s as [|x s IH]; intros cur Hin; simpl.
  - destruct Hin as [Hin|Hin]; [|by apply elem_of_nil in Hin].
    exists cur. split; [by left | done].
  - destruct (issep x) eqn:E.
    + destruct Hin as [Hin|Hin].
      * exists cur. split; [by left | done].
      * apply elem_of_cons in Hin as [->|Hin]; [congruence|].
        destruct (IH [] (or_intror Hin)) as (t & Ht & Hct).
        exists t. split; [by right | done].
    + apply IH. rewrite elem_of_app, elem_of_cons, elem_of_nil.
      destruct Hin as [Hin|Hin]; [tauto|].
      apply elem_of_cons in Hin as [->|Hin]; tauto.
Qed.

Lemma emit_nil cur l : emit cur l = [] → cur = [] ∧ l = [].
Proof. by destruct cur. Qed.

Lemma split_ws_from_nil cur s :
  split_ws_from cur s = [] ↔ cur = [] ∧ blank s.
Proof.
  revert cur. induction s as [|x s IH]; intros cur; simpl.
  - split.
    + intros H. apply emit_nil in H as [-> _]. by split; [|constructor].
    + by intros [-> _].
  - destruct (isspace x) eqn:E.
    + split.
      * intros H. apply emit_nil in H as [-> H]. apply IH in H as [_ H].
        split; [done | by constructor].
      * intros [-> H]. apply Forall_cons in H as [_ H]. simpl.
        apply IH. done.
    + rewrite IH. split.
      * intros [H _]. by destruct cur.
      * intros [_ H]. apply Forall_cons in H as [H _]. congruence.
Qed.

Lemma join_words_nil sep (ws : list (list N)) :
  Forall word ws → join sep ws = [] → ws = [].
Proof.
  intros Hws. destruct Hws as [|w ws [Hw _] Hws]; [done|].
  destruct ws as [|w2 ws]; simpl; [done|].
  intros H. by apply app_eq_nil in H as [-> _].
Qed.

(** A text is collapsed to the empty string exactly when it is blank. *)
Lemma collapse_ws_nil s : collapse_ws s = [] ↔ blank s.
Proof.
  unfold collapse_ws. split.
  - intros H. apply join_words_nil in H; [|apply split_ws_words].
    by apply split_ws_from_nil in H as [_ H].
  - intros H. unfold split_ws.
    by rewrite (proj2 (split_ws_from_nil [] s) (conj eq_refl H)).
Qed.

Lemma clean_each_nil l : clean_each l = [] ↔ Forall blank l.
Proof.
  induction l as [|t l IH]; simpl; [done|].
  rewrite Forall_cons, <- IH, <- collapse_ws_nil.
  destruct (collapse_ws t); simpl; [tauto|]. split; [done | by intros [? _]].
Qed.

Lemma is_delimiter_separator c : is_delimiter c = true ↔ separator c.
Proof.
  unfold is_delimiter, separator.
  rewrite !orb_true_iff, !N.eqb_eq, !elem_of_cons, elem_of_nil. tauto.
Qed.

Lemma tag_filler_dec c : tag_filler c ∨ ¬ tag_filler c.
Proof.
  unfold tag_filler. destruct (is_delimiter c) eqn:E.
  - left. left. by apply is_delimiter_separator.
  - destruct (decide (c ∈ [0x22; 0x27])) as [H|H]; [by left; right; left|].
    destruct (isspace c) eqn:Es; [by left; right; right|].
    right. intros [Hs | [Hq | Hw]]; [|done|done].
    apply is_delimiter_separator in Hs. congruence.
Qed.

Lemma tag_filler_test c :
  is_delimiter c || (c =? 0x22) || (c =? 0x27) || isspace c = true →
  tag_filler c.
Proof.
  rewrite !orb_true_iff, !N.eqb_eq, is_delimiter_separator.
  unfold tag_filler, straight_quote. rewrite !elem_of_cons, elem_of_nil.
  tauto.
Qed.

(** No tag survives exactly when the tag string holds nothing but
    separators, straight quotes and whitespace. *)
Lemma surviving_tags_nil s :
  surviving_tags s = [] ↔ Forall tag_filler s.
Proof.
  unfold surviving_tags. rewrite clean_each_nil. split.
  - intros H. apply Forall_forall. intros c Hc.
    destruct (tag_filler_dec c) as [Hf|Hf]; [done|]. exfalso.
    assert (is_delimiter c = false) as Hd.
    { destruct (is_delimiter c) eqn:E; [|done].
      exfalso. apply Hf. left. by apply is_delimiter_separator. }
    assert (isspace c = false) as Hs.
    { destruct (isspace c) eqn:E; [|done].
      exfalso. apply Hf. by right; right. }
    assert (c ≠ 0x22 ∧ c ≠ 0x27 ∧ c ≠ 0x2C ∧ c ≠ 0x20) as (H1 & H2 & H3 & H4).
    { repeat split; intros ->; first [done | apply Hf].
      - right; left. by left.
      - right; left. right. by left. }
    destruct (re_split_from_keeps is_delimiter []
                (foldl (λ s quote, replace quote [] s) (strip s)
                       quotes_to_remove) c Hd) as (t & Ht & Hct).
    { right. apply unquoted_keeps; [by apply strip_keeps | done..]. }
    rewrite Forall_forall in H. specialize (H t Ht).
    unfold blank in H. rewrite Forall_forall in H. apply H in Hct. congruence.
  - intros H. rewrite Forall_forall in H.
    eapply Forall_impl.
    + apply (re_split_from_no_sep (λ c, c ∈ s ∧ c ≠ 0x22 ∧ c ≠ 0x27));
        [done|].
      apply Forall_forall. intros c Hc.
      apply unquoted_elem_of in Hc as (Hc & ? & ?).
      apply strip_elem_of in Hc. done.
    + intros t Ht. simpl in Ht. unfold blank.
      eapply Forall_impl; [exact Ht|]. intros c (Hd & Hc & H1 & H2).
      destruct (H c Hc) as [Hs | [Hq | Hw]]; [| |done].
      * apply is_delimiter_separator in Hs. congruence.
      * unfold straight_quote in Hq.
        rewrite !elem_of_cons, elem_of_nil in Hq. tauto.
Qed.

End NoTag.

(** X19: one call of the tag cleaner adds exactly one to the tags-cleaned
    counter when at least one cleaned segment survives, however many there
    are, and leaves every counter as it was when none survives.  No segment
    survives exactly when the tag string holds nothing but separators,
    straight quotes and whitespace, and exactly then the call returns the
    empty string and leaves the counters as they were. *)
Theorem clean_tags_counts_once (s : pystr) (st : Stats) :
  (surviving_tags s ≠ [] →
     (clean_tags s st).2 = incr_tags_cleaned st
     ∧ tags_cleaned (clean_tags s st).2 = S (tags_cleaned st))
  ∧ (surviving_tags s = [] → (clean_tags s st).2 = st)
  ∧ (surviving_tags s = [] ↔ Forall tag_filler s)
  ∧ (Forall tag_filler s ↔ clean_tags s st = ([], st)).
Proof.
  rewrite clean_tags_eq. simpl. split; [|split; [|split]].
  - intros Hne. by destruct (surviving_tags s).
  - by intros ->.
  - apply surviving_tags_nil.
  - rewrite <- surviving_tags_nil. split.
    + by intros ->.
    + destruct (surviving_tags s); [done|]. intros [= _ H].
      apply (f_equal tags_cleaned) in H. simpl in H. lia.
Qed.

Lemma clean_tags_counts_once_witness :
  surviving_tags (str "VIP; New |x") = [str "VIP"; str "New"; str "x"]
  ∧ tags_cleaned (clean_tags (str "VIP; New |x") init_stats).2 = 1%nat
  ∧ clean_tags [0x22; 0x2C; 0x20; 0x3B; 0x7C; 0x27; 0x27; 0x22] init_stats
    = ([], init_stats).
Proof.
  split; [reflexivity|]. split.
  - apply (proj1 (clean_tags_counts_once (str "VIP; New |x") init_stats)).
    by vm_compute.
  - apply (proj1 (proj2 (proj2 (proj2 (clean_tags_counts_once _ init_stats))))).
    repeat (apply Forall_cons; split; [apply tag_filler_test; reflexivity|]).
    apply Forall_nil_2.
Defined.
(** C1, as it holds of the code: take a file that has no column named
    [Email] and no KELVIN SIGN (U+212A) in its [Email Address] cells, and
    run the analysis and then the conversion on it.  The number of valid
    e-mails found by the analysis is the number of rows whose e-mail the
    conversion takes as valid, and the invalid-emails counter of the
    analysis plus the number of rows whose e-mail is missing or empty once
    trimmed is the number of rows that the conversion skips for a missing
    or invalid e-mail.  When duplicates are kept, these two numbers are the
    processed and the skipped counters of the conversion. *)
Theorem analysis_and_conversion_counts (f : InputFile) (keep : bool) :
  "Email" ∉ fieldnames f →
  (∀ row, row ∈ rows f → 0x212A ∉ row_get row "Email Address") →
  let cm := column_mapping (fieldnames f) in
  let a := (run f keep init_stats).1.1 in
  let st := (run f keep init_stats).2 in
  valid_emails a = count (conversion_accepts cm) (rows f)
  ∧ (invalid_emails st + count blank_email (rows f))%nat
    = count (conversion_rejects cm) (rows f)
  ∧ (keep = true →
     valid_emails a = processed st
     ∧ (invalid_emails st + count blank_email (rows f))%nat = skipped st).
Proof.
  intros Hcol Hk cm a st. subst a st. rewrite run_eq. simpl.
  rewrite convert_invalid_emails.
  destruct (analyze_input_counts f init_stats) as [Hv Hi].
  rewrite Hv, Hi. simpl.
  assert (col_Email cm = "Email Address") as Hcm
    by (by apply column_mapping_email).
  assert (count analysis_valid (rows f) = count (conversion_accepts cm) (rows f))
    as Hval.
  { apply count_ext. intros row Hrow.
    by apply (row_classes cm row Hcm (Hk row Hrow)). }
  assert ((count analysis_invalid (rows f) + count blank_email (rows f))%nat
          = count (conversion_rejects cm) (rows f)) as Hinv.
  { apply count_split. intros row Hrow.
    by destruct (row_classes cm row Hcm (Hk row Hrow)) as (_ & ? & ?). }
  split; [done|]. split; [done|]. intros ->. simpl.
  destruct (convert_counts f (analyze_input f init_stats).2) as [-> ->].
  destruct (analyze_input_frame f init_stats) as [-> ->]. simpl.
  fold cm. rewrite Hval, <- Hinv. done.
Qed.

Lemma analysis_and_conversion_counts_witness :
  valid_emails (run mixed_file true init_stats).1.1 = 2%nat
  ∧ processed (run mixed_file true init_stats).2 = 2%nat
  ∧ invalid_emails (run mixed_file true init_stats).2 = 1%nat
  ∧ count blank_email (rows mixed_file) = 1%nat
  ∧ skipped (run mixed_file true init_stats).2 = 2%nat.
Proof.
  assert ("Email" ∉ fieldnames mixed_file) as Hcol
    by (apply (bool_decide_unpack _); by vm_compute).
  assert (∀ row, row ∈ rows mixed_file →
                 0x212A ∉ row_get row "Email Address") as Hk.
  { intros row Hrow. apply (bool_decide_unpack _).
    repeat (apply elem_of_cons in Hrow as [->|Hrow]; [by vm_compute|]).
    by apply elem_of_nil in Hrow. }
  destruct (analysis_and_conversion_counts mixed_file true Hcol Hk)
    as (Hv & Hi & Hkeep).
  destruct (Hkeep eq_refl) as [Hp Hs].
  split; [reflexivity|]. split; [by rewrite <- Hp|].
  split; [reflexivity|]. split; [reflexivity|]. by rewrite <- Hs.
Defined.

(** C1 as it is written does not hold of the code.  A row with an empty
    e-mail is skipped by the conversion for its missing e-mail and is not
    counted under [invalid_emails] by the analysis.  In a file whose e-mail
    column is named [Email] the analysis, which reads [Email Address], finds
    no valid e-mail where the conversion takes one.  An e-mail with a
    KELVIN SIGN is valid for the analysis, which lowercases it first, and
    invalid for the conversion. *)
Lemma analysis_and_conversion_counts_differ :
  (invalid_emails (analyze_input blank_email_file init_stats).2 = 0%nat
   ∧ count (conversion_rejects (column_mapping (fieldnames blank_email_file)))
           (rows blank_email_file) = 1%nat
   ∧ skipped (convert blank_email_file true init_stats).2 = 1%nat)
  ∧ (valid_emails (analyze_input email_column_file init_stats).1 = 0%nat
     ∧ count (conversion_accepts
                (column_mapping (fieldnames email_column_file)))
             (rows email_column_file) = 1%nat
     ∧ processed (convert email_column_file true init_stats).2 = 1%nat)
  ∧ (valid_emails (analyze_input kelvin_file init_stats).1 = 1%nat
     ∧ count (conversion_accepts (column_mapping (fieldnames kelvin_file)))
             (rows kelvin_file) = 0%nat
     ∧ processed (convert kelvin_file true init_stats).2 = 0%nat).
Proof. by vm_compute. Qed.

(** C2 does not hold of the code: on a file with one contact that has a
    tag, the analysis pass leaves [tags_cleaned] at 1, and the conversion
    pass that follows reports 2 tags cleaned for 1 contact processed, where
    a conversion that starts from fresh counters reports 1. *)
Theorem analysis_raises_tags_cleaned :
  tags_cleaned init_stats = 0%nat
  ∧ tags_cleaned (analyze_input one_contact_file init_stats).2 = 1%nat
  ∧ conversion_report (convert one_contact_file true init_stats).2
    = (1, 0, 1)%nat
  ∧ conversion_report (run one_contact_file false init_stats).2
    = (1, 0, 2)%nat.
Proof. by vm_compute. Qed.

(** C3: the conversion pass treats a row by the first rule that applies.
    A missing or invalid e-mail: the skipped counter goes up by one and
    nothing is written.  Otherwise, duplicates being removed and the
    lowercased e-mail being in the set of e-mails already seen: the same.
    Otherwise the lowercased e-mail joins the set, a row of four fields is
    written, made of the trimmed e-mail, the cleaned first and last names
    and the cleaned tags, and the processed counter goes up by one.  No row
    of the output file has an empty or invalid e-mail. *)
Theorem convert_row_policy (f : InputFile) (cm : ColumnMapping) (rd : bool)
    (row : gmap string (list N)) (cv : Conversion) (st : Stats) :
  let email := strip (row_get row (col_Email cm)) in
  (email = [] ∨ validate_email email = false →
     convert_row cm rd row cv st = (cv, incr_skipped st))
  ∧ (email ≠ [] → validate_email email = true →
     rd = true → lower email ∈ emails_processed cv →
     convert_row cm rd row cv st = (cv, incr_skipped st))
  ∧ (email ≠ [] → validate_email email = true →
     rd = false ∨ lower email ∉ emails_processed cv →
     convert_row cm rd row cv st =
       (mkConversion
          ({[lower email]} ∪ emails_processed cv)
          (written cv ++
             [mkOutRow email
                (clean_name (row_get row (col_First_Name cm)))
                (clean_name (row_get row (col_Last_Name cm)))
                (clean_tags (row_get row (col_Tags cm)) st).1]),
        incr_processed (clean_tags (row_get row (col_Tags cm)) st).2))
  ∧ (∀ o, o ∈ (convert f rd st).1 →
       Email o ≠ [] ∧ validate_email (Email o) = true).
Proof.
  intros email. subst email. rewrite convert_row_eq. unfold clean_row, row_email.
  set (email := strip (row_get row (col_Email cm))).
  split; [|split; [|split]].
  - intros H. assert (email_rejected email = true) as ->; [|done].
    unfold email_rejected. destruct H as [->| ->]; [done|].
    by rewrite orb_true_r.
  - intros _ Hv -> Hin. apply email_rejected_false in Hv. rewrite Hv.
    by rewrite bool_decide_eq_true_2.
  - intros _ Hv Hd. apply email_rejected_false in Hv. rewrite Hv.
    assert (rd && bool_decide (lower email ∈ emails_processed cv) = false)
      as ->.
    { destruct Hd as [->|Hn]; [done|].
      rewrite bool_decide_eq_false_2 by done. apply andb_false_r. }
    by rewrite clean_tags_value.
  - intros o Ho. pose proof (convert_written_valid f rd st) as H.
    rewrite Forall_forall in H. specialize (H o Ho). split; [|done].
    intros E. by rewrite E in H.
Qed.

Lemma convert_row_policy_witness :
  convert_row mailchimp_columns true
    (mailchimp_row " Ann@B.com" " Ann " "Lee" "VIP;'New'")
    (mkConversion {[str "bob@b.com"]} []) init_stats
  = (mkConversion ({[str "ann@b.com"]} ∪ {[str "bob@b.com"]})
       [mkOutRow (str "Ann@B.com") (str "Ann") (str "Lee") (str "VIP, New")],
     incr_processed (incr_tags_cleaned init_stats))
  ∧ convert_row mailchimp_columns true
      (mailchimp_row "BOB@b.com" "Bob" "" "")
      (mkConversion {[str "bob@b.com"]} []) init_stats
    = (mkConversion {[str "bob@b.com"]} [], incr_skipped init_stats)
  ∧ convert_row mailchimp_columns true
      (mailchimp_row "bob.b.com" "Bob" "" "")
      (mkConversion {[str "bob@b.com"]} []) init_stats
    = (mkConversion {[str "bob@b.com"]} [], incr_skipped init_stats).
Proof.
  split; [|split].
  - rewrite (proj1 (proj2 (proj2
      (convert_row_policy (mkInputFile mailchimp_header []) mailchimp_columns
         true (mailchimp_row " Ann@B.com" " Ann " "Lee" "VIP;'New'")
         (mkConversion {[str "bob@b.com"]} []) init_stats)))).
    + reflexivity.
    + by vm_compute.
    + reflexivity.
    + right. apply (bool_decide_unpack _). by vm_compute.
  - apply (proj1 (proj2
      (convert_row_policy (mkInputFile mailchimp_header []) mailchimp_columns
         true (mailchimp_row "BOB@b.com" "Bob" "" "")
         (mkConversion {[str "bob@b.com"]} []) init_stats))).
    + by vm_compute.
    + reflexivity.
    + reflexivity.
    + apply (bool_decide_unpack _). by vm_compute.
  - apply (proj1
      (convert_row_policy (mkInputFile mailchimp_header []) mailchimp_columns
         true (mailchimp_row "bob.b.com" "Bob" "" "")
         (mkConversion {[str "bob@b.com"]} []) init_stats)).
    right. reflexivity.
Defined.

(** C4: the validator answers false on the empty string; it answers true
    exactly when the text with the whitespace around it removed is, as a
    whole, a local part, an at sign, a domain, a dot and a top-level domain,
    the local part being made of letters, digits and [. _ % + -], the domain
    of letters, digits, dots and hyphens, and the top-level domain of at
    least two letters; so it answers false when there is no at sign and
    when the text does not end with a dot and two or more letters. *)
Theorem validate_email_spec (s : pystr) :
  validate_email [] = false
  ∧ (validate_email s = true ↔ email_shape (strip s))
  ∧ (0x40 ∉ s → validate_email s = false)
  ∧ (¬ has_tld (strip s) → validate_email s = false).
Proof.
  split; [done|]. split; [apply validate_email_shape|].
  split; intros Hn; apply not_true_is_false; intros Hv;
    apply validate_email_shape in Hv; apply Hn.
  - apply strip_elem_of. by apply email_shape_at.
  - by apply email_shape_tld.
Qed.

Lemma validate_email_spec_witness :
  validate_email (str " Jane.Doe+x@mail.example.org ") = true
  ∧ validate_email (str "jane.example.org") = false
  ∧ validate_email (str "jane@example.c") = false.
Proof.
  split; [reflexivity|]. split.
  - apply (proj1 (proj2 (proj2 (validate_email_spec (str "jane.example.org"))))).
    apply (bool_decide_unpack _). by vm_compute.
  - reflexivity.
Defined.

(** C5 does not hold of the code: cleaning the tag string [VIP,New] gives
    [VIP, New], and cleaning that result gives [VIPNew], because the last
    item of [quotes_to_remove] is the two-character string comma, space. *)
Theorem clean_tags_twice_differs :
  (clean_tags (str "VIP,New") init_stats).1 = str "VIP, New"
  ∧ (clean_tags (str "VIP, New") init_stats).1 = str "VIPNew"
  ∧ ¬ ((clean_tags (clean_tags (str "VIP,New") init_stats).1 init_stats).1
       = (clean_tags (str "VIP,New") init_stats).1).
Proof. split; [reflexivity|]. split; [reflexivity|]. by vm_compute. Qed.

(** C6 does not hold of the code: the curly double quotes U+201C, U+201D
    and the curly single quotes U+2018, U+2019 of a tag string are all still
    there after cleaning, because [quotes_to_remove] holds the straight
    quotes only. *)
Theorem clean_tags_keeps_curly_quotes :
  (clean_tags [0x201C; 0x56; 0x49; 0x50; 0x201D; 0x2C; 0x2018; 0x4E; 0x2019]
              init_stats).1
  = [0x201C; 0x56; 0x49; 0x50; 0x201D; 0x2C; 0x20; 0x2018; 0x4E; 0x2019].
Proof. reflexivity. Qed.

(** C7: when duplicates are removed and two rows of the file have valid
    e-mails that are equal once lowercased, whether or not they differ in
    case, the output holds exactly one row for that address: the row built
    from the first row of the file that has it, with its e-mail as it stands
    in that row, trimmed and in its original case. *)
Theorem first_of_duplicates_is_written (f : InputFile) (st : Stats)
    (pre mid post : list (gmap string (list N)))
    (r1 r2 : gmap string (list N)) :
  let cm := column_mapping (fieldnames f) in
  rows f = pre ++ r1 :: mid ++ r2 :: post →
  validate_email (row_email cm r1) = true →
  validate_email (row_email cm r2) = true →
  lower (row_email cm r1) = lower (row_email cm r2) →
  (∀ r, r ∈ pre → validate_email (row_email cm r) = true →
        lower (row_email cm r) ≠ lower (row_email cm r1)) →
  rows_for (lower (row_email cm r1)) (convert f true st).1 = [clean_row cm r1]
  ∧ Email (clean_row cm r1) = strip (row_get r1 (col_Email cm)).
Proof.
  intros cm Hrows Hv1 _ _ Hpre. split; [|done].
  unfold convert, mbind, M_bind. fold cm. rewrite Hrows.
  pose proof (convert_rows_first cm (lower (row_email cm r1)) pre r1
                (mid ++ r2 :: post) st Hv1 eq_refl Hpre) as H.
  destruct (for_each _ _ _ _) as [cv st']. exact H.
Qed.

Lemma first_of_duplicates_is_written_witness :
  rows_for (str "ann@b.com")
    (convert
       (mkInputFile mailchimp_header
          [mailchimp_row "bob.b.com" "Bob" "" "x";
           mailchimp_row "Ann@B.com" "Ann" "Lee" "VIP;'New'";
           mailchimp_row "cy@b.com" "Cy" "" "";
           mailchimp_row "ann@b.com" "Annie" "" "Other"])
       true init_stats).1
  = [mkOutRow (str "Ann@B.com") (str "Ann") (str "Lee") (str "VIP, New")].
Proof.
  apply (first_of_duplicates_is_written
    (mkInputFile mailchimp_header
       [mailchimp_row "bob.b.com" "Bob" "" "x";
        mailchimp_row "Ann@B.com" "Ann" "Lee" "VIP;'New'";
        mailchimp_row "cy@b.com" "Cy" "" "";
        mailchimp_row "ann@b.com" "Annie" "" "Other"])
    init_stats
    [mailchimp_row "bob.b.com" "Bob" "" "x"]
    [mailchimp_row "cy@b.com" "Cy" "" ""] []
    (mailchimp_row "Ann@B.com" "Ann" "Lee" "VIP;'New'")
    (mailchimp_row "ann@b.com" "Annie" "" "Other")).
  - reflexivity.
  - reflexivity.
  - reflexivity.
  - reflexivity.
  - intros r Hr. apply list_elem_of_singleton in Hr as ->. by vm_compute.
Defined.

(** C8 does not hold of the code: the tag string U+201C U+201D holds only
    quote characters, and the tag string [,;|] followed by U+2018 U+2019
    holds only separators and quote characters, yet in each a segment
    survives the cleaning, the curly quotes are returned and the
    tags-cleaned counter goes up by one, because [quotes_to_remove] holds
    the straight quotes only. *)
Theorem clean_tags_counts_curly_quotes :
  Forall separator_or_quote [0x201C; 0x201D]
  ∧ surviving_tags [0x201C; 0x201D] = [[0x201C; 0x201D]]
  ∧ clean_tags [0x201C; 0x201D] init_stats
    = ([0x201C; 0x201D], incr_tags_cleaned init_stats)
  ∧ tags_cleaned (clean_tags [0x201C; 0x201D] init_stats).2 = 1%nat
  ∧ Forall separator_or_quote [0x2C; 0x3B; 0x7C; 0x2018; 0x2019]
  ∧ clean_tags [0x2C; 0x3B; 0x7C; 0x2018; 0x2019] init_stats
    = ([0x2018; 0x2019], incr_tags_cleaned init_stats)
  ∧ ¬ (clean_tags [0x201C; 0x201D] init_stats = ([], init_stats)).
Proof.
  assert (∀ c, c ∈ [0x2C; 0x3B; 0x7C; 0x2018; 0x2019; 0x201C; 0x201D] →
               separator_or_quote c) as Hq.
  { intros c. unfold separator_or_quote, separator, curly_quote.
    rewrite !elem_of_cons, !elem_of_nil. tauto. }
  assert (∀ l, Forall (λ c, c ∈ [0x2C; 0x3B; 0x7C; 0x2018; 0x2019;
                                  0x201C; 0x201D]) l →
               Forall separator_or_quote l) as Hl.
  { intros l Hl. eapply Forall_impl; [exact Hl | exact Hq]. }
  split; [|split; [|split; [|split; [|split; [|split]]]]].
  - apply Hl. repeat constructor.
    all: apply (bool_decide_unpack _); by vm_compute.
  - reflexivity.
  - reflexivity.
  - reflexivity.
  - apply Hl. repeat constructor.
    all: apply (bool_decide_unpack _); by vm_compute.
  - reflexivity.
  - by vm_compute.
Qed.
(** C9: in the analysis pass a row whose e-mail cell is missing, or empty
    once trimmed, only raises the total-rows counter: the list of valid
    e-mails, the tag counts and the other counters stay as they are.  A row
    whose e-mail is not empty and fails the validator raises the total-rows
    counter and the invalid-emails counter. *)
Theorem analyze_row_without_valid_email
    (row : gmap string (list N)) (a : Analysis) (st : Stats) :
  let email := lower (strip (row_get row "Email Address")) in
  (row !! "Email Address" = None →
     analyze_row row a st = (a, incr_total_rows st))
  ∧ (strip (row_get row "Email Address") = [] →
     analyze_row row a st = (a, incr_total_rows st))
  ∧ (email ≠ [] → validate_email email = false →
     analyze_row row a st = (a, incr_invalid_emails (incr_total_rows st))).
Proof.
  intros email. subst email. rewrite analyze_row_eq. unfold analysis_email.
  simpl. split; [|split].
  - intros E. unfold row_get. by rewrite E.
  - by intros ->.
  - intros Hne Hv. rewrite Hv, andb_false_r.
    apply truthy_true in Hne. by rewrite Hne.
Qed.

Lemma analyze_row_without_valid_email_witness :
  analyze_row (mailchimp_row "   " "Ann" "Lee" "VIP") (mkAnalysis [] ∅)
              init_stats
  = (mkAnalysis [] ∅, incr_total_rows init_stats)
  ∧ analyze_row (<["TAGS" := str "VIP"]> ∅) (mkAnalysis [] ∅) init_stats
    = (mkAnalysis [] ∅, incr_total_rows init_stats)
  ∧ analyze_row (mailchimp_row "Ann.b.com" "Ann" "Lee" "VIP")
                (mkAnalysis [] ∅) init_stats
    = (mkAnalysis [] ∅, incr_invalid_emails (incr_total_rows init_stats)).
Proof.
  split; [|split].
  - apply (proj1 (proj2 (analyze_row_without_valid_email
      (mailchimp_row "   " "Ann" "Lee" "VIP") (mkAnalysis [] ∅) init_stats))).
    reflexivity.
  - apply (proj1 (analyze_row_without_valid_email
      (<["TAGS" := str "VIP"]> ∅) (mkAnalysis [] ∅) init_stats)).
    reflexivity.
  - apply (proj2 (proj2 (analyze_row_without_valid_email
      (mailchimp_row "Ann.b.com" "Ann" "Lee" "VIP") (mkAnalysis [] ∅)
      init_stats))).
    + by vm_compute.
    + reflexivity.
Defined.

(** C10: cleaning a name twice gives what cleaning it once gives, and a
    cleaned name neither starts nor ends with a whitespace character nor
    holds two whitespace characters side by side. *)
Theorem clean_name_idempotent_and_tidy (s : pystr) :
  clean_name (clean_name s) = clean_name s
  ∧ no_outer_ws (clean_name s)
  ∧ no_double_ws (clean_name s).
Proof.
  unfold clean_name. destruct s as [|c s]; simpl.
  - repeat split; try done. apply no_double_ws_nil.
  - split; [|apply collapse_ws_tidy].
    destruct (collapse_ws (c :: s)) eqn:E; [done|]. simpl.
    rewrite <- E. apply collapse_ws_idem.
Qed.

